(** * Linger: the settling-range tracker of src/main.ts

    A shallow embedding of [SettlingViewPlugin] (src/main.ts) and of the
    settings record of src/settings.ts.

    Numbers.  Document offsets and [Date.now()] timestamps are integers and
    are modelled in [Z].  The two settings are JavaScript numbers; they are
    modelled by rationals [Q] with exact arithmetic, so that [/] is the
    mathematical quotient for every non-zero divisor.  Statements that
    divide carry [0 < transitionDuration] (the settings slider offers
    0.5 .. 10).  Equality of computed style values is [Qeq] ([==]).

    Host.  CodeMirror and the browser are collaborators, not part of the
    repository.  Their behaviour is a parameter of the development:
    - [isDarkMode] answers the theme query for the host as it is at the
      time of the call;
    - [addOk] is the validity check of [RangeSetBuilder.add]: it sees the
      ranges added to the builder so far and the range being added, and
      [add] throws exactly when it answers [false];
    - the timer table of [window] is the list of pending timeout ids.

    A decoration set is kept as the list of ranges in the order they were
    added.  CodeMirror's own set is ordered by position, so of a decoration
    set only what does not depend on the order of its ranges is stated of
    the host's set too. *)

From Stdlib Require Import ZArith QArith Qminmax List Bool String Lia Lqa.
From Stdlib Require Import Permutation.
Import ListNotations.

Open Scope Q_scope.

(** ** Data model *)

(** [LingerSettings], src/settings.ts. *)
Record LingerSettings : Type := {
  transitionDuration : Q;  (* seconds *)
  intensity : Q            (* 0..1 *)
}.

Definition DEFAULT_SETTINGS : LingerSettings :=
  {| transitionDuration := 3 # 2; intensity := 2 # 5 |}.

(** [interface SettlingRange]. *)
Record SettlingRange : Type := {
  from : Z;
  to : Z;
  timestamp : Z
}.

(** The [style] attribute a mark carries: [filter: brightness(v);] or
    [opacity: v;]. *)
Inductive Style : Type :=
| Brightness (v : Q)
| Opacity (v : Q).

(** The value of [Decoration.mark({class, attributes: {style}})]. *)
Record Decoration : Type := {
  class : string;
  style : Style
}.

Definition styleValue (d : Decoration) : Q :=
  match style d with
  | Brightness v => v
  | Opacity v => v
  end.

(** One range of a decoration set: the three arguments of a successful
    [builder.add(from, to, mark)]. *)
Record PaintRange : Type := {
  paintFrom : Z;
  paintTo : Z;
  paintMark : Decoration
}.

(** A decoration set lists its ranges in the order they were added. *)
Definition DecorationSet : Type := list PaintRange.

(** [Decoration.none]. *)
Definition Decoration_none : DecorationSet := [].

(** The fields of [class SettlingViewPlugin]. *)
Record SettlingViewPlugin : Type := {
  decorations : DecorationSet;
  settlingRanges : list SettlingRange;
  cleanupTimer : option nat;
  settings : LingerSettings
}.

(** One call of the [iterChanges] callback: [(fromA, toA, fromB, toB)]. *)
Record Change : Type := {
  fromA : Z;
  toA : Z;
  fromB : Z;
  toB : Z
}.

(** ** The timer table of [window] *)

Record Window : Type := {
  timers : list nat;   (* ids of the timeouts that are pending *)
  nextTimer : nat      (* the id the next [setTimeout] returns *)
}.

Definition setTimeout (w : Window) : nat * Window :=
  (nextTimer w,
   {| timers := nextTimer w :: timers w; nextTimer := S (nextTimer w) |}).

Definition clearTimeout (w : Window) (id : nat) : Window :=
  {| timers := List.remove Nat.eq_dec id (timers w);
     nextTimer := nextTimer w |}.

(** ** Rational comparison as the code's [>] *)

Definition Qgtb (a b : Q) : bool := negb (Qle_bool a b).

(** ** Pure parts of the plugin *)

(** [const totalDuration = this.settings.transitionDuration * 1000]. *)
Definition totalDuration (s : LingerSettings) : Q :=
  transitionDuration s * 1000.

(** [const age = now - range.timestamp]. *)
Definition age (now : Z) (range : SettlingRange) : Q :=
  inject_Z (now - timestamp range).

(** [const progress = Math.min(age / totalDuration, 1)]. *)
Definition progress (s : LingerSettings) (now : Z) (range : SettlingRange) : Q :=
  Qmin (age now range / totalDuration s) 1.

(** [createSettlingMark(isDark, progress)]. *)
Definition createSettlingMark (s : LingerSettings) (isDark : bool)
    (progress : Q) : Decoration :=
  let intensity := intensity s in
  if isDark then
    let minBrightness := 1 - intensity in
    let brightness := minBrightness + (progress * intensity) in
    {| class := "settling-text"; style := Brightness brightness |}
  else
    let minOpacity := 1 - intensity in
    let opacity := minOpacity + (progress * intensity) in
    {| class := "settling-text"; style := Opacity opacity |}.

(** [updateSettings(settings)]. *)
Definition updateSettings (settings' : LingerSettings)
    (p : SettlingViewPlugin) : SettlingViewPlugin :=
  {| decorations := decorations p;
     settlingRanges := settlingRanges p;
     cleanupTimer := cleanupTimer p;
     settings := settings' |}.

(** The assignment [this.decorations = d]. *)
Definition setDecorations (d : DecorationSet)
    (p : SettlingViewPlugin) : SettlingViewPlugin :=
  {| decorations := d;
     settlingRanges := settlingRanges p;
     cleanupTimer := cleanupTimer p;
     settings := settings p |}.

(** The [push] of [update]: one range per change with [toB > fromB]. *)
Definition pushChange (now : Z) (ranges : list SettlingRange) (c : Change)
    : list SettlingRange :=
  if (toB c >? fromB c)%Z
  then ranges ++ [{| from := fromB c; to := toB c; timestamp := now |}]
  else ranges.

Definition iterChanges (now : Z) (changes : list Change)
    (ranges : list SettlingRange) : list SettlingRange :=
  fold_left (pushChange now) changes ranges.

(** The paint instruction the pass computes for a range. *)
Definition paintOf (s : LingerSettings) (isDark : bool) (now : Z)
    (range : SettlingRange) : PaintRange :=
  {| paintFrom := from range;
     paintTo := to range;
     paintMark := createSettlingMark s isDark (progress s now range) |}.

(** ** The host *)

(** What the plugin asks of CodeMirror and of the page.  [EditorView] is
    the host as it is when the plugin is called. *)
Class Host (EditorView : Type) : Type := {
  (* [document.body.classList.contains('theme-dark')] *)
  isDarkMode : EditorView -> bool;
  (* does [builder.add(from, to, mark)] return (rather than throw), given
     the ranges the builder already holds *)
  addOk : DecorationSet -> Z -> Z -> Decoration -> bool
}.

(** A host whose builder takes every range; light theme. *)
Definition permissiveHost : Host unit :=
  {| isDarkMode := fun _ => false;
     addOk := fun _ _ _ _ => true |}.

(** A host whose builder refuses a range that ends beyond a document of
    [docLength] characters; the theme is the view itself. *)
Definition boundedHost (docLength : Z) : Host bool :=
  {| isDarkMode := fun dark => dark;
     addOk := fun _ from to _ => ((0 <=? from) && (to <=? docLength))%Z |}.

(** A host whose builder follows the ordering rule of CodeMirror's
    [RangeSetBuilder] for marks of one kind: [add] throws when [from] is
    below the [from] of the range added last, and looks at nothing else
    (not at the length of the document); the theme is the view itself. *)
Definition orderedHost : Host bool :=
  {| isDarkMode := fun dark => dark;
     addOk := fun b from _ _ =>
       match rev b with
       | [] => true
       | lastAdded :: _ => (paintFrom lastAdded <=? from)%Z
       end |}.

(** [ViewUpdate]: the fields [update] reads. *)
Record ViewUpdate (EditorView : Type) : Type := {
  view : EditorView;
  docChanged : bool;
  changes : list Change
}.
Arguments view {EditorView} _.
Arguments docChanged {EditorView} _.
Arguments changes {EditorView} _.

(** The plugin together with the timer table it schedules on. *)
Definition World : Type := (SettlingViewPlugin * Window)%type.

Section Plugin.
Context {EditorView : Type} `{Host EditorView}.

(** *** [RangeSetBuilder] *)

Definition RangeSetBuilder : Type := DecorationSet.

Definition newRangeSetBuilder : RangeSetBuilder := [].

(** [builder.add(from, to, value)]: [None] is the exception; the builder
    is then as it was. *)
Definition add (builder : RangeSetBuilder) (from to : Z) (value : Decoration)
    : option RangeSetBuilder :=
  if addOk builder from to value
  then Some (builder ++ [{| paintFrom := from; paintTo := to; paintMark := value |}])
  else None.

Definition finish (builder : RangeSetBuilder) : DecorationSet := builder.

(** *** [buildDecorations] *)

(** The [filter] callback run over the ranges in order, the builder
    threaded through: the ranges kept, and the builder at the end. *)
Fixpoint filterRanges (s : LingerSettings) (isDark : bool) (now : Z)
    (builder : RangeSetBuilder) (ranges : list SettlingRange)
    : list SettlingRange * RangeSetBuilder :=
  match ranges with
  | [] => ([], builder)
  | range :: rest =>
      if Qgtb (age now range) (totalDuration s)
      then filterRanges s isDark now builder rest
      else
        let mark := createSettlingMark s isDark (progress s now range) in
        match add builder (from range) (to range) mark with
        | None => filterRanges s isDark now builder rest
        | Some builder' =>
            let (kept, final) := filterRanges s isDark now builder' rest in
            (range :: kept, final)
        end
  end.

(** [buildDecorations(view, now)]: the plugin with its ranges filtered,
    and the decoration set returned. *)
Definition buildDecorations (v : EditorView) (now : Z)
    (p : SettlingViewPlugin) : SettlingViewPlugin * DecorationSet :=
  let builder := newRangeSetBuilder in
  let isDark := isDarkMode v in
  let (kept, builder') :=
    filterRanges (settings p) isDark now builder (settlingRanges p) in
  ({| decorations := decorations p;
      settlingRanges := kept;
      cleanupTimer := cleanupTimer p;
      settings := settings p |},
   finish builder').

(** [this.decorations = this.buildDecorations(view, now)]. *)
Definition rebuild (v : EditorView) (now : Z)
    (p : SettlingViewPlugin) : SettlingViewPlugin :=
  let (p', d) := buildDecorations v now p in setDecorations d p'.

(** *** The timer *)

(** [scheduleCleanup(view)]: clears the timer the plugin remembers and
    sets a new one. *)
Definition scheduleCleanup (st : World) : World :=
  let (p, w) := st in
  let w1 :=
    match cleanupTimer p with
    | Some id => clearTimeout w id
    | None => w
    end in
  let (id, w2) := setTimeout w1 in
  ({| decorations := decorations p;
      settlingRanges := settlingRanges p;
      cleanupTimer := Some id;
      settings := settings p |}, w2).

(** The callback given to [setTimeout]; [view.update([])] asks the host
    to repaint and leaves the plugin as it is. *)
Definition timerCallback (v : EditorView) (now : Z) (st : World) : World :=
  let (p, w) := st in
  let p' := rebuild v now p in
  if (0 <? List.length (settlingRanges p'))%nat
  then scheduleCleanup (p', w)
  else (p', w).

(** [constructor(view, settings)]. *)
Definition constructor (settings : LingerSettings) (w : Window) : World :=
  scheduleCleanup
    ({| decorations := Decoration_none;
        settlingRanges := [];
        cleanupTimer := None;
        settings := settings |}, w).

(** [update(update)], with [now] the value of [Date.now()]. *)
Definition update (u : ViewUpdate EditorView) (now : Z) (st : World) : World :=
  let (p, w) := st in
  let p1 :=
    if (0 <? List.length (settlingRanges p))%nat
    then rebuild (view u) now p
    else p in
  if docChanged u then
    let p2 :=
      {| decorations := decorations p1;
         settlingRanges := iterChanges now (changes u) (settlingRanges p1);
         cleanupTimer := cleanupTimer p1;
         settings := settings p1 |} in
    let p3 := rebuild (view u) now p2 in
    scheduleCleanup (p3, w)
  else (p1, w).

(** [destroy()]. *)
Definition destroy (st : World) : World :=
  let (p, w) := st in
  match cleanupTimer p with
  | Some id => (p, clearTimeout w id)
  | None => (p, w)
  end.

(** *** The event loop *)

Inductive Event : Type :=
| EvUpdate (u : ViewUpdate EditorView) (now : Z)
| EvTimeout (id : nat) (v : EditorView) (now : Z)
| EvUpdateSettings (s : LingerSettings).

Definition pending (id : nat) (w : Window) : bool :=
  existsb (Nat.eqb id) (timers w).

(** One turn of the event loop.  A timeout fires only while it is
    pending, and leaves the table before its callback runs. *)
Definition step (st : World) (e : Event) : option World :=
  match e with
  | EvUpdate u now => Some (update u now st)
  | EvTimeout id v now =>
      let (p, w) := st in
      if pending id w
      then Some (timerCallback v now (p, clearTimeout w id))
      else None
  | EvUpdateSettings s => let (p, w) := st in Some (updateSettings s p, w)
  end.

Fixpoint run (st : World) (events : list Event) : option World :=
  match events with
  | [] => Some st
  | e :: rest =>
      match step st e with
      | Some st' => run st' rest
      | None => None
      end
  end.

Definition isTimeout (e : Event) : bool :=
  match e with
  | EvTimeout _ _ _ => true
  | _ => false
  end.

(** The event reports an insertion: a document change with [toB > fromB]. *)
Definition isInsertion (e : Event) : bool :=
  match e with
  | EvUpdate u _ =>
      docChanged u && existsb (fun c => (toB c >? fromB c)%Z) (changes u)
  | _ => false
  end.

(** The event is an update that changed the document. *)
Definition isDocChange (e : Event) : bool :=
  match e with
  | EvUpdate u _ => docChanged u
  | _ => false
  end.

(** The worlds the plugin can be in: constructed on an empty timer table,
    then driven by the event loop. *)
Inductive reachable : World -> Prop :=
| reach_new : forall s n,
    reachable (constructor s {| timers := []; nextTimer := n |})
| reach_step : forall st e st',
    reachable st -> step st e = Some st' -> reachable st'.

End Plugin.

(** ** The progress law as the specification words it *)

Definition clamp (x lo hi : Q) : Q := Qmax lo (Qmin x hi).

(** [clamp((now - createdAt) / (transitionDuration * 1000), 0, 1)]. *)
Definition clampedProgress (s : LingerSettings) (now : Z)
    (range : SettlingRange) : Q :=
  clamp (age now range / totalDuration s) 0 1.

(** ** Example data *)

Definition demoRange (f t ts : Z) : SettlingRange :=
  {| from := f; to := t; timestamp := ts |}.

Definition demoPlugin (s : LingerSettings) (ranges : list SettlingRange)
    : SettlingViewPlugin :=
  {| decorations := Decoration_none;
     settlingRanges := ranges;
     cleanupTimer := None;
     settings := s |}.

Definition emptyWindow : Window := {| timers := []; nextTimer := 0 |}.

(** A deletion of one character at offset 5: nothing is inserted. *)
Definition deletionAt5 : Change :=
  {| fromA := 5; toA := 6; fromB := 5; toB := 5 |}.

Definition insertion (f t : Z) : Change :=
  {| fromA := f; toA := f; fromB := f; toB := t |}.

(** Updates on the permissive host: an insertion of [10, 15), and the
    deletion above. *)
Definition insertUpdate : ViewUpdate unit :=
  {| view := tt; docChanged := true; changes := [insertion 10 15] |}.

Definition deleteUpdate : ViewUpdate unit :=
  {| view := tt; docChanged := true; changes := [deletionAt5] |}.

(** A newly constructed plugin: its first timeout, id 0, is pending. *)
Definition freshWorld : World := constructor DEFAULT_SETTINGS emptyWindow.


(** At most the timer the plugin remembers is pending. *)
Definition timerInv (st : World) : Prop :=
  timers (snd st) = [] \/
  exists id, cleanupTimer (fst st) = Some id /\ timers (snd st) = [id].

(** ** Settings: persistence and the facet (class [LingerPlugin]) *)

(** What [loadData()] resolves to: [null] ([None]), or the stored object
    with the keys it has. *)
Record SavedData : Type := {
  savedTransitionDuration : option Q;
  savedIntensity : option Q
}.

(** [loadSettings()]: [Object.assign({}, DEFAULT_SETTINGS, await this.loadData())]. *)
Definition loadSettings (data : option SavedData) : LingerSettings :=
  match data with
  | None => DEFAULT_SETTINGS
  | Some d =>
      {| transitionDuration :=
           match savedTransitionDuration d with
           | Some v => v
           | None => transitionDuration DEFAULT_SETTINGS
           end;
         intensity :=
           match savedIntensity d with
           | Some v => v
           | None => intensity DEFAULT_SETTINGS
           end |}
  end.

(** [saveSettings()]: what [saveData(this.settings)] stores. *)
Definition saveSettings (s : LingerSettings) : option SavedData :=
  Some {| savedTransitionDuration := Some (transitionDuration s);
          savedIntensity := Some (intensity s) |}.

(** The [onChange] handlers of the two sliders, up to their [saveSettings]. *)
Definition setTransitionDuration (val : Q) (s : LingerSettings) : LingerSettings :=
  {| transitionDuration := val; intensity := intensity s |}.

Definition setIntensity (val : Q) (s : LingerSettings) : LingerSettings :=
  {| transitionDuration := transitionDuration s; intensity := val |}.

(** [settingsField]'s [combine: (values) => values[0] || DEFAULT_SETTINGS]. *)
Definition settingsField_combine (values : list LingerSettings) : LingerSettings :=
  match values with
  | v :: _ => v
  | [] => DEFAULT_SETTINGS
  end.

(** [(view.state as any).facet?.(settingsField) || DEFAULT_SETTINGS], the
    settings the extension's subclass passes to [super].  [None]: the state
    has no [facet]; [Some values]: the values provided for the facet. *)
Definition extensionSettings (facet : option (list LingerSettings))
    : LingerSettings :=
  match facet with
  | Some values => settingsField_combine values
  | None => DEFAULT_SETTINGS
  end.

(** The constructor of the class given to [ViewPlugin.fromClass]. *)
Definition extensionConstructor (facet : option (list LingerSettings))
    (w : Window) : World :=
  constructor (extensionSettings facet) w.

(** ** Vocabulary for the statements below *)

(** [l1] is [l2] with some elements left out, the order kept. *)
Inductive Subsequence {A : Type} : list A -> list A -> Prop :=
| Subsequence_nil : Subsequence [] []
| Subsequence_keep : forall x l1 l2,
    Subsequence l1 l2 -> Subsequence (x :: l1) (x :: l2)
| Subsequence_skip : forall x l1 l2,
    Subsequence l1 l2 -> Subsequence l1 (x :: l2).

(** The range has not expired at [now]: the pass's [age > totalDuration]
    is false. *)
Definition alive (s : LingerSettings) (now : Z) (range : SettlingRange) : bool :=
  negb (Qgtb (age now range) (totalDuration s)).

(** The ranges [update] pushes for the changes of one update. *)
Definition insertedRanges (now : Z) (cs : list Change) : list SettlingRange :=
  map (fun c => {| from := fromB c; to := toB c; timestamp := now |})
      (filter (fun c => (toB c >? fromB c)%Z) cs).

(** No [add] of the pass over [ranges] at [now] throws: every range that
    has not expired is accepted by a builder that holds the paint
    instructions of the unexpired ranges before it. *)
Definition noAddRefused {EditorView : Type} `{Host EditorView}
    (s : LingerSettings) (isDark : bool) (now : Z)
    (ranges : list SettlingRange) : Prop :=
  forall l1 r l2,
    ranges = l1 ++ r :: l2 ->
    alive s now r = true ->
    addOk (map (paintOf s isDark now) (filter (alive s now) l1))
          (from r) (to r)
          (createSettlingMark s isDark (progress s now r)) = true.

(** [noAddRefused], computed: the pass re-run with the builder's checks
    collected. *)
Fixpoint addsAccepted {EditorView : Type} `{Host EditorView}
    (s : LingerSettings) (isDark : bool) (now : Z)
    (builder : DecorationSet) (ranges : list SettlingRange) : bool :=
  match ranges with
  | [] => true
  | r :: rest =>
      if alive s now r
      then addOk builder (from r) (to r)
                 (createSettlingMark s isDark (progress s now r))
           && addsAccepted s isDark now (builder ++ [paintOf s isDark now r]) rest
      else addsAccepted s isDark now builder rest
  end.

(** An update, on a host whose view is the theme, that inserts [f, t). *)
Definition insertAt (f t : Z) : ViewUpdate bool :=
  {| view := false; docChanged := true; changes := [insertion f t] |}.

(** The span of a tracked range and of a paint instruction. *)
Definition rangeSpan (r : SettlingRange) : Z * Z := (from r, to r).

Definition paintSpan (d : PaintRange) : Z * Z := (paintFrom d, paintTo d).

Definition isUpdateSettings {EditorView : Type} (e : @Event EditorView) : bool :=
  match e with
  | EvUpdateSettings _ => true
  | _ => false
  end.

(** The [Date.now()] of the pass an event runs, if it runs one. *)
Definition eventTime {EditorView : Type} (e : @Event EditorView) : option Z :=
  match e with
  | EvUpdate _ now => Some now
  | EvTimeout _ _ now => Some now
  | EvUpdateSettings _ => None
  end.

(* [H : Some x = Some y]: replace [y] by [x] as it stands. *)
Ltac some_inj H :=
  match type of H with
  | Some ?x = Some ?y =>
      let E := fresh "E" in
      assert (E : y = x) by congruence; subst y; clear H
  end.

(** ** Comparison and arithmetic lemmas *)

Lemma Qgtb_true (a b : Q) : Qgtb a b = true <-> b < a.
Proof.
  unfold Qgtb. rewrite negb_true_iff. split; intro Hab.
  - apply Qnot_le_lt. intro Hle. apply Qle_bool_iff in Hle. congruence.
  - destruct (Qle_bool a b) eqn:E; [|reflexivity].
    apply Qle_bool_iff in E. exfalso. exact (Qlt_not_le _ _ Hab E).
Qed.

Lemma Qgtb_false (a b : Q) : Qgtb a b = false <-> a <= b.
Proof.
  unfold Qgtb. rewrite negb_false_iff. apply Qle_bool_iff.
Qed.

Lemma totalDuration_pos (s : LingerSettings) :
  0 < transitionDuration s -> 0 < totalDuration s.
Proof. unfold totalDuration. intro Hpos. lra. Qed.

Lemma age_nonneg (now : Z) (r : SettlingRange) :
  (timestamp r <= now)%Z -> 0 <= age now r.
Proof.
  intro Hle. unfold age. change 0 with (inject_Z 0).
  rewrite <- Zle_Qle. lia.
Qed.

Lemma age_mono (t1 t2 : Z) (r : SettlingRange) :
  (t1 <= t2)%Z -> age t1 r <= age t2 r.
Proof. intro Hle. unfold age. rewrite <- Zle_Qle. lia. Qed.

Lemma Qdiv_le_mono (a b c : Q) : 0 < c -> a <= b -> a / c <= b / c.
Proof.
  intros Hc Hab. unfold Qdiv. apply Qmult_le_compat_r; [exact Hab|].
  apply Qlt_le_weak, Qinv_lt_0_compat, Hc.
Qed.

Lemma Qdiv_nonneg (a c : Q) : 0 < c -> 0 <= a -> 0 <= a / c.
Proof.
  intros Hc Ha. unfold Qdiv. apply Qmult_le_0_compat; [exact Ha|].
  apply Qlt_le_weak, Qinv_lt_0_compat, Hc.
Qed.

Section PluginFacts.
Context {EditorView : Type} `{Host EditorView}.

(** ** The filter pass *)

Lemma filterRanges_incl s dark now : forall ranges b r,
  In r (fst (filterRanges s dark now b ranges)) -> In r ranges.
Proof.
  induction ranges as [|x rest IH]; intros b r; simpl; [tauto|].
  destruct (Qgtb (age now x) (totalDuration s)).
  - intro Hin. right. exact (IH _ _ Hin).
  - destruct (add b (from x) (to x) _) as [b'|].
    + destruct (filterRanges s dark now b' rest) as [kept final] eqn:E.
      simpl. intros [->|Hin]; [now left|right].
      apply (IH b'). rewrite E. exact Hin.
    + intro Hin. right. exact (IH _ _ Hin).
Qed.

Lemma filterRanges_alive s dark now : forall ranges b r,
  In r (fst (filterRanges s dark now b ranges)) ->
  age now r <= totalDuration s.
Proof.
  induction ranges as [|x rest IH]; intros b r; simpl; [tauto|].
  destruct (Qgtb (age now x) (totalDuration s)) eqn:Ex.
  - apply IH.
  - destruct (add b (from x) (to x) _) as [b'|].
    + destruct (filterRanges s dark now b' rest) as [kept final] eqn:E.
      simpl. intros [<-|Hin]; [now apply Qgtb_false|].
      apply (IH b'). rewrite E. exact Hin.
    + apply IH.
Qed.

(** The builder ends with one paint instruction per range kept, in order. *)
Lemma filterRanges_builder s dark now : forall ranges b,
  snd (filterRanges s dark now b ranges) =
  b ++ map (paintOf s dark now) (fst (filterRanges s dark now b ranges)).
Proof.
  induction ranges as [|x rest IH]; intro b; simpl.
  - now rewrite app_nil_r.
  - destruct (Qgtb (age now x) (totalDuration s)); [apply IH|].
    unfold add.
    destruct (addOk b (from x) (to x) _); [|apply IH].
    specialize (IH (b ++ [{| paintFrom := from x; paintTo := to x;
      paintMark := createSettlingMark s dark (progress s now x) |}])).
    destruct (filterRanges s dark now _ rest) as [kept final].
    simpl in *. rewrite IH, <- app_assoc. reflexivity.
Qed.

(** Filtering the ranges kept keeps them all and rebuilds the same builder. *)
Lemma filterRanges_idem s dark now : forall ranges b,
  filterRanges s dark now b (fst (filterRanges s dark now b ranges)) =
  filterRanges s dark now b ranges.
Proof.
  induction ranges as [|x rest IH]; intro b; simpl; [reflexivity|].
  destruct (Qgtb (age now x) (totalDuration s)) eqn:Ex; [apply IH|].
  destruct (add b (from x) (to x) _) as [b'|] eqn:Ea; [|apply IH].
  specialize (IH b').
  destruct (filterRanges s dark now b' rest) as [kept final].
  simpl in *. rewrite Ex, Ea, IH. reflexivity.
Qed.

Lemma filterRanges_app s dark now : forall l1 l2 b,
  filterRanges s dark now b (l1 ++ l2) =
  (fst (filterRanges s dark now b l1) ++
   fst (filterRanges s dark now (snd (filterRanges s dark now b l1)) l2),
   snd (filterRanges s dark now (snd (filterRanges s dark now b l1)) l2)).
Proof.
  induction l1 as [|x rest IH]; intros l2 b; simpl.
  - now destruct (filterRanges s dark now b l2).
  - destruct (Qgtb (age now x) (totalDuration s)); [apply IH|].
    destruct (add b (from x) (to x) _) as [b'|]; [|apply IH].
    rewrite (IH l2 b').
    destruct (filterRanges s dark now b' rest) as [kept final].
    reflexivity.
Qed.

(** What [buildDecorations] leaves in the plugin and what it returns. *)
Lemma buildDecorations_ranges v now p :
  settlingRanges (fst (buildDecorations v now p)) =
  fst (filterRanges (settings p) (isDarkMode v) now [] (settlingRanges p)).
Proof.
  unfold buildDecorations, newRangeSetBuilder.
  now destruct (filterRanges _ _ _ _ _).
Qed.

Lemma buildDecorations_paints v now p :
  snd (buildDecorations v now p) =
  map (paintOf (settings p) (isDarkMode v) now)
      (settlingRanges (fst (buildDecorations v now p))).
Proof.
  rewrite buildDecorations_ranges.
  unfold buildDecorations, newRangeSetBuilder, finish.
  pose proof (filterRanges_builder (settings p) (isDarkMode v) now
                (settlingRanges p) []) as Hb.
  destruct (filterRanges _ _ _ _ _) as [kept final]. simpl in *. exact Hb.
Qed.

Lemma buildDecorations_frame v now p :
  settings (fst (buildDecorations v now p)) = settings p /\
  cleanupTimer (fst (buildDecorations v now p)) = cleanupTimer p /\
  decorations (fst (buildDecorations v now p)) = decorations p.
Proof.
  unfold buildDecorations. now destruct (filterRanges _ _ _ _ _).
Qed.

(** ** C1 *)

(** C1.  A prune pass at time [now] removes every interval whose age
    [now - timestamp] is strictly greater than [transitionDuration * 1000],
    and every interval left in the working set has an age of at most
    [transitionDuration * 1000] milliseconds. *)
Theorem prune_removes_expired (v : EditorView) (now : Z) (p : SettlingViewPlugin) :
  let p' := fst (buildDecorations v now p) in
  (forall r, In r (settlingRanges p) ->
             totalDuration (settings p) < age now r ->
             ~ In r (settlingRanges p')) /\
  (forall r, In r (settlingRanges p') ->
             age now r <= totalDuration (settings p)).
Proof.
  cbv zeta. rewrite buildDecorations_ranges.
  assert (Halive := filterRanges_alive (settings p) (isDarkMode v) now
                      (settlingRanges p) []).
  split.
  - intros r _ Hold Hin. apply Halive in Hin.
    exact (Qlt_not_le _ _ Hold Hin).
  - exact Halive.
Qed.

End PluginFacts.

(** ** Progress and style *)

Lemma progress_le_1 (s : LingerSettings) (now : Z) (r : SettlingRange) :
  progress s now r <= 1.
Proof. unfold progress. apply Q.le_min_r. Qed.

Lemma progress_nonneg (s : LingerSettings) (now : Z) (r : SettlingRange) :
  0 < transitionDuration s -> (timestamp r <= now)%Z -> 0 <= progress s now r.
Proof.
  intros Hs Hnow. unfold progress. apply Q.min_glb; [|lra].
  apply Qdiv_nonneg; [now apply totalDuration_pos | now apply age_nonneg].
Qed.

Lemma progress_at_creation (s : LingerSettings) (now : Z) (r : SettlingRange) :
  timestamp r = now -> progress s now r == 0.
Proof.
  intros <-. unfold progress, age. rewrite Z.sub_diag.
  change (inject_Z 0) with 0.
  assert (E : 0 / totalDuration s == 0) by (unfold Qdiv; lra).
  rewrite E. apply Q.min_l. lra.
Qed.


Section Rendering.
Context {EditorView : Type} `{Host EditorView}.

(** C2 (as amended).  For an interval that survives the prune pass at
    [now], the paint instruction emitted carries
    [progress = min((now - createdAt) / (transitionDuration * 1000), 1)].
    It is never above 1; and once [now] is not before [createdAt] (with a
    positive duration) it is not below 0 and is the clamp to [0, 1]. *)
Theorem progress_of_survivor (v : EditorView) (now : Z)
    (p : SettlingViewPlugin) (r : SettlingRange) :
  In r (settlingRanges (fst (buildDecorations v now p))) ->
  let s := settings p in
  In (paintOf s (isDarkMode v) now r) (snd (buildDecorations v now p)) /\
  progress s now r == Qmin (age now r / (transitionDuration s * 1000)) 1 /\
  progress s now r <= 1 /\
  (0 < transitionDuration s -> (timestamp r <= now)%Z ->
   0 <= progress s now r /\ progress s now r == clampedProgress s now r).
Proof.
  intros Hin s. split; [|split; [|split]].
  - rewrite buildDecorations_paints. now apply in_map.
  - unfold progress, totalDuration. apply Qeq_refl.
  - apply progress_le_1.
  - intros Hs Hnow. split; [now apply progress_nonneg|].
    unfold clampedProgress, clamp. symmetry. apply Q.max_r.
    now apply progress_nonneg.
Qed.


(** C7.  Running the prune pass a second time at the same [now], on the
    same host, changes nothing: the same intervals survive and the same
    decoration set is returned. *)
Theorem prune_idempotent (v : EditorView) (now : Z) (p : SettlingViewPlugin) :
  buildDecorations v now (fst (buildDecorations v now p)) =
  buildDecorations v now p.
Proof.
  unfold buildDecorations, newRangeSetBuilder.
  pose proof (filterRanges_idem (settings p) (isDarkMode v) now
                (settlingRanges p) []) as Hidem.
  destruct (filterRanges (settings p) (isDarkMode v) now [] (settlingRanges p))
    as [kept final] eqn:E.
  simpl in *. rewrite Hidem. reflexivity.
Qed.

(** C10.  [updateSettings] replaces the settings and nothing else: the
    intervals, the decoration set, the remembered timer and the timer table
    stay as they were, and the next pass runs with the new settings. *)
Theorem updateSettings_frame (s : LingerSettings) (p : SettlingViewPlugin)
    (w : Window) :
  settings (updateSettings s p) = s /\
  settlingRanges (updateSettings s p) = settlingRanges p /\
  decorations (updateSettings s p) = decorations p /\
  cleanupTimer (updateSettings s p) = cleanupTimer p /\
  step (p, w) (EvUpdateSettings s) = Some (updateSettings s p, w) /\
  (forall (v : EditorView) now,
     settlingRanges (fst (buildDecorations v now (updateSettings s p))) =
       fst (filterRanges s (isDarkMode v) now [] (settlingRanges p)) /\
     snd (buildDecorations v now (updateSettings s p)) =
       map (paintOf s (isDarkMode v) now)
           (fst (filterRanges s (isDarkMode v) now [] (settlingRanges p)))).
Proof.
  do 5 (split; [reflexivity|]). intros v now. split.
  - now rewrite buildDecorations_ranges.
  - now rewrite buildDecorations_paints, buildDecorations_ranges.
Qed.

End Rendering.

(** C8.  On a fixed interval, progress does not decrease as time advances. *)
Theorem progress_monotone (s : LingerSettings) (r : SettlingRange) (t1 t2 : Z) :
  0 < transitionDuration s -> (t1 < t2)%Z ->
  progress s t1 r <= progress s t2 r.
Proof.
  intros Hs Hlt. unfold progress. apply Q.min_le_compat_r.
  apply Qdiv_le_mono; [now apply totalDuration_pos|].
  apply age_mono. lia.
Qed.

(** ** Invalid spans, insertions and the timer *)


Section Driver.
Context {EditorView : Type} `{Host EditorView}.

Lemma rebuild_ranges v now p :
  settlingRanges (rebuild v now p) =
  fst (filterRanges (settings p) (isDarkMode v) now [] (settlingRanges p)).
Proof.
  unfold rebuild. rewrite <- buildDecorations_ranges.
  now destruct (buildDecorations v now p).
Qed.

Lemma rebuild_decorations v now p :
  decorations (rebuild v now p) =
  map (paintOf (settings p) (isDarkMode v) now) (settlingRanges (rebuild v now p)).
Proof.
  rewrite rebuild_ranges, <- buildDecorations_ranges, <- buildDecorations_paints.
  unfold rebuild. now destruct (buildDecorations v now p).
Qed.

Lemma rebuild_frame v now p :
  settings (rebuild v now p) = settings p /\
  cleanupTimer (rebuild v now p) = cleanupTimer p.
Proof.
  unfold rebuild. destruct (buildDecorations_frame v now p) as (Hs & Ht & _).
  now destruct (buildDecorations v now p).
Qed.

Lemma rebuild_incl v now p :
  incl (settlingRanges (rebuild v now p)) (settlingRanges p).
Proof.
  intros r Hin. rewrite rebuild_ranges in Hin.
  exact (filterRanges_incl _ _ _ _ _ _ Hin).
Qed.

(** C4.  When the builder refuses the span of an interval at its turn in
    the pass, the pass raises nothing and gives what it gives without that
    interval: it is not in the working set, no paint instruction is emitted
    for it, and every other interval is treated as if it had not been
    there; the decoration set holds one instruction per interval left. *)
Theorem invalid_span_dropped (v : EditorView) (now : Z)
    (p : SettlingViewPlugin) (l1 l2 : list SettlingRange) (r : SettlingRange) :
  settlingRanges p = l1 ++ r :: l2 ->
  let s := settings p in
  let isDark := isDarkMode v in
  add (snd (filterRanges s isDark now newRangeSetBuilder l1)) (from r) (to r)
      (createSettlingMark s isDark (progress s now r)) = None ->
  buildDecorations v now p =
    buildDecorations v now
      {| decorations := decorations p;
         settlingRanges := l1 ++ l2;
         cleanupTimer := cleanupTimer p;
         settings := settings p |} /\
  snd (buildDecorations v now p) =
    map (paintOf s isDark now) (settlingRanges (fst (buildDecorations v now p))).
Proof.
  intros Hranges s isDark Hadd. split; [|apply buildDecorations_paints].
  unfold buildDecorations. simpl. rewrite Hranges.
  rewrite !filterRanges_app. fold s isDark.
  replace (filterRanges s isDark now
             (snd (filterRanges s isDark now newRangeSetBuilder l1)) (r :: l2))
    with (filterRanges s isDark now
             (snd (filterRanges s isDark now newRangeSetBuilder l1)) l2).
  - reflexivity.
  - simpl. rewrite Hadd. now destruct (Qgtb (age now r) (totalDuration s)).
Qed.


End Driver.

Section Overlap.
Context {EditorView : Type} `{Host EditorView}.

Lemma scheduleCleanup_plugin (st : World) :
  settlingRanges (fst (scheduleCleanup st)) = settlingRanges (fst st) /\
  decorations (fst (scheduleCleanup st)) = decorations (fst st) /\
  settings (fst (scheduleCleanup st)) = settings (fst st).
Proof.
  destruct st as [p w]. unfold scheduleCleanup, setTimeout.
  now destruct (cleanupTimer p).
Qed.

Lemma filterRanges_keep s isDark now b x rest :
  age now x <= totalDuration s ->
  addOk b (from x) (to x) (createSettlingMark s isDark (progress s now x)) = true ->
  filterRanges s isDark now b (x :: rest) =
  (x :: fst (filterRanges s isDark now (b ++ [paintOf s isDark now x]) rest),
   snd (filterRanges s isDark now (b ++ [paintOf s isDark now x]) rest)).
Proof.
  intros Halive Hok. simpl. apply Qgtb_false in Halive. rewrite Halive.
  unfold add. rewrite Hok. unfold paintOf.
  now destruct (filterRanges s isDark now _ rest).
Qed.

(** What an update that changed the document leaves in the plugin. *)
Lemma update_docChanged (u : ViewUpdate EditorView) (now : Z)
    (p : SettlingViewPlugin) (w : Window) :
  docChanged u = true ->
  let s := settings p in
  let isDark := isDarkMode (view u) in
  let l1 := if (0 <? List.length (settlingRanges p))%nat
            then fst (filterRanges s isDark now [] (settlingRanges p))
            else settlingRanges p in
  let l3 := fst (filterRanges s isDark now [] (iterChanges now (changes u) l1)) in
  settlingRanges (fst (update u now (p, w))) = l3 /\
  decorations (fst (update u now (p, w))) = map (paintOf s isDark now) l3 /\
  settings (fst (update u now (p, w))) = s.
Proof.
  intros Hdoc s isDark l1 l3. unfold update. rewrite Hdoc.
  set (p1 := if (0 <? List.length (settlingRanges p))%nat
             then rebuild (view u) now p else p).
  assert (Hs1 : settings p1 = s).
  { subst p1. destruct (0 <? _)%nat; [apply rebuild_frame | reflexivity]. }
  assert (Hl1 : settlingRanges p1 = l1).
  { subst p1 l1. destruct (0 <? _)%nat; [apply rebuild_ranges | reflexivity]. }
  match goal with |- context [scheduleCleanup (?q, w)] => set (p3 := q) end.
  destruct (scheduleCleanup_plugin (p3, w)) as (Hr & Hd & Hs).
  rewrite Hr, Hd, Hs. simpl fst.
  assert (Hr3 : settlingRanges p3 = l3).
  { subst p3. rewrite rebuild_ranges. simpl. now rewrite Hs1, Hl1. }
  split; [exact Hr3|]. split.
  - rewrite <- Hr3. subst p3. rewrite rebuild_decorations.
    simpl. now rewrite Hs1.
  - subst p3. rewrite (proj1 (rebuild_frame _ _ _)). exact Hs1.
Qed.

End Overlap.

(** ** The timer stops *)

Section Timer.
Context {EditorView : Type} `{Host EditorView}.

Lemma scheduleCleanup_timerInv (st : World) :
  timerInv st -> timerInv (scheduleCleanup st).
Proof.
  destruct st as [p w]. unfold timerInv, scheduleCleanup, setTimeout.
  simpl. intros [Hnil | (id & Hid & Hone)]; right.
  - exists (nextTimer w). destruct (cleanupTimer p); simpl; rewrite Hnil; auto.
  - exists (nextTimer w). rewrite Hid. simpl. rewrite Hone. simpl.
    destruct (Nat.eq_dec id id); [auto | congruence].
Qed.

Lemma pending_timerInv (p : SettlingViewPlugin) (w : Window) (id : nat) :
  timerInv (p, w) -> pending id w = true ->
  timers (clearTimeout w id) = [].
Proof.
  unfold timerInv, pending. simpl. intros [Hnil | (id' & _ & Hone)] Hpend.
  - rewrite Hnil in Hpend. discriminate.
  - rewrite Hone in *. simpl in Hpend. rewrite orb_false_r in Hpend.
    apply Nat.eqb_eq in Hpend. subst id'. simpl.
    destruct (Nat.eq_dec id id); [reflexivity | congruence].
Qed.

Lemma timerInv_same_timer (p p' : SettlingViewPlugin) (w : Window) :
  cleanupTimer p' = cleanupTimer p -> timerInv (p, w) -> timerInv (p', w).
Proof.
  unfold timerInv. simpl. intros Heq [Hnil | (id & Hid & Hone)]; [now left|].
  right. exists id. now rewrite Heq.
Qed.

Lemma step_timerInv (st st' : World) (e : Event) :
  timerInv st -> step st e = Some st' -> timerInv st'.
Proof.
  destruct st as [p w]. intros Hinv Hstep. destruct e as [u now | id v now | s].
  - unfold step in Hstep. some_inj Hstep.
    assert (Hp1 : timerInv
              (if (0 <? List.length (settlingRanges p))%nat
               then rebuild (view u) now p else p, w)).
    { apply (timerInv_same_timer p); [|exact Hinv].
      destruct (0 <? _)%nat; [apply rebuild_frame | reflexivity]. }
    unfold update. destruct (docChanged u) eqn:Hdoc; [|exact Hp1].
    eapply scheduleCleanup_timerInv, timerInv_same_timer; [|exact Hp1].
    now rewrite (proj2 (rebuild_frame _ _ _)).
  - unfold step in Hstep. destruct (pending id w) eqn:Hpend; [|discriminate].
    some_inj Hstep.
    pose proof (pending_timerInv p w id Hinv Hpend) as Hnil.
    unfold timerCallback.
    destruct (0 <? _)%nat.
    + apply scheduleCleanup_timerInv. now left.
    + now left.
  - unfold step in Hstep. some_inj Hstep.
    now apply (timerInv_same_timer p).
Qed.

Lemma reachable_timerInv (st : World) : reachable st -> timerInv st.
Proof.
  induction 1 as [s n | st e st' _ IH Hstep].
  - right. exists n. now split.
  - exact (step_timerInv st st' e IH Hstep).
Qed.

(** While no update changes the document, an idle timer table stays idle
    and no timeout can fire. *)
Lemma idle_until_docChange : forall (events : list Event) (st st' : World),
  timers (snd st) = [] ->
  forallb (fun e => negb (isDocChange e)) events = true ->
  run st events = Some st' ->
  forallb (fun e => negb (isTimeout e)) events = true /\ timers (snd st') = [].
Proof.
  induction events as [|e rest IH]; intros st st' Hidle Hquiet Hrun.
  - simpl in Hrun. some_inj Hrun. now split.
  - simpl in Hquiet. apply andb_true_iff in Hquiet as [He Hrest].
    simpl in Hrun. destruct (step st e) as [st1|] eqn:Hstep; [|discriminate].
    destruct st as [p w]. simpl in Hidle.
    assert (Hnext : isTimeout e = false /\ timers (snd st1) = []).
    { destruct e as [u now | id v now | s]; unfold step in Hstep.
      - some_inj Hstep. simpl in He. apply negb_true_iff in He.
        unfold update. rewrite He. now split.
      - unfold pending in Hstep. rewrite Hidle in Hstep. discriminate.
      - some_inj Hstep. now split. }
    destruct Hnext as [Hno Hidle1].
    destruct (IH st1 st' Hidle1 Hrest Hrun) as [Hrest' Hfinal].
    split; [|exact Hfinal]. simpl. now rewrite Hno.
Qed.

(** C9 (as amended).  When the pass of a tick leaves no interval, the
    timer is not set again: no timeout is pending, and none fires until an
    update that changed the document arrives. *)
Theorem timer_stops_when_empty (st st' : World) (id : nat) (v : EditorView)
    (now : Z) :
  reachable st ->
  step st (EvTimeout id v now) = Some st' ->
  settlingRanges (fst st') = [] ->
  timers (snd st') = [] /\
  (forall (events : list Event) (st'' : World),
     forallb (fun e => negb (isDocChange e)) events = true ->
     run st' events = Some st'' ->
     forallb (fun e => negb (isTimeout e)) events = true /\
     timers (snd st'') = []).
Proof.
  intros Hreach Hstep Hempty.
  assert (Hidle : timers (snd st') = []).
  { apply reachable_timerInv in Hreach. destruct st as [p w].
    unfold step in Hstep. destruct (pending id w) eqn:Hpend; [|discriminate].
    some_inj Hstep.
    pose proof (pending_timerInv p w id Hreach Hpend) as Hnil.
    unfold timerCallback in *.
    destruct (0 <? List.length (settlingRanges (rebuild v now p)))%nat eqn:Hlen.
    - exfalso. rewrite (proj1 (scheduleCleanup_plugin _)) in Hempty.
      simpl in Hempty. rewrite Hempty in Hlen. discriminate.
    - exact Hnil. }
  split; [exact Hidle|].
  intros events st'' Hquiet Hrun.
  exact (idle_until_docChange events st' st'' Hidle Hquiet Hrun).
Qed.

End Timer.

(** ** The theorems at concrete inputs *)

(** Default settings, light theme: of three intervals at [now = 2000], the
    one created at 0 has expired and goes; the two created at 1000 stay. *)
Lemma prune_removes_expired_witness :
  let p := demoPlugin DEFAULT_SETTINGS
             [demoRange 10 15 0; demoRange 20 22 1000; demoRange 3 4 1000] in
  settlingRanges (fst (buildDecorations (H := permissiveHost) tt 2000 p)) =
    [demoRange 20 22 1000; demoRange 3 4 1000] /\
  ~ In (demoRange 10 15 0)
       (settlingRanges (fst (buildDecorations (H := permissiveHost) tt 2000 p))) /\
  age 2000 (demoRange 20 22 1000) <= totalDuration DEFAULT_SETTINGS.
Proof.
  intro p. split; [reflexivity|].
  pose proof (prune_removes_expired (H := permissiveHost) tt 2000 p) as [Hgone Hkept].
  split.
  - apply Hgone; [left; reflexivity | reflexivity].
  - apply Hkept. left; reflexivity.
Defined.

Lemma progress_of_survivor_witness :
  let r := demoRange 10 15 0 in
  let p := demoPlugin DEFAULT_SETTINGS [r] in
  In r (settlingRanges (fst (buildDecorations (H := permissiveHost) tt 750 p))) /\
  In (paintOf DEFAULT_SETTINGS false 750 r)
     (snd (buildDecorations (H := permissiveHost) tt 750 p)) /\
  progress DEFAULT_SETTINGS 750 r <= 1 /\
  0 <= progress DEFAULT_SETTINGS 750 r.
Proof.
  intros r p.
  assert (Hin : In r (settlingRanges
                        (fst (buildDecorations (H := permissiveHost) tt 750 p))))
    by (left; reflexivity).
  split; [exact Hin|].
  destruct (progress_of_survivor (H := permissiveHost) tt 750 p r Hin)
    as (Hpaint & _ & Hle & Hfrom).
  split; [exact Hpaint|]. split; [exact Hle|].
  apply Hfrom; [reflexivity | discriminate].
Defined.

(** The claim of C2 fails before the creation time.  Default settings; an
    interval stamped 1500 and a pass at [now = 0] (the clock was set back):
    the interval survives, and its progress is -1, where the clamp gives 0. *)
Lemma progress_below_zero :
  let r := demoRange 10 15 1500 in
  let p := demoPlugin DEFAULT_SETTINGS [r] in
  buildDecorations (H := permissiveHost) tt 0 p =
    (p, [paintOf DEFAULT_SETTINGS false 0 r]) /\
  progress DEFAULT_SETTINGS 0 r == -1 /\
  progress DEFAULT_SETTINGS 0 r < 0 /\
  clampedProgress DEFAULT_SETTINGS 0 r == 0 /\
  ~ progress DEFAULT_SETTINGS 0 r == clampedProgress DEFAULT_SETTINGS 0 r.
Proof.
  intros r p. split; [reflexivity|]. split; [reflexivity|].
  split; [reflexivity|]. split; [reflexivity|]. discriminate.
Defined.


Lemma progress_monotone_witness :
  progress DEFAULT_SETTINGS 300 (demoRange 10 15 0) <=
  progress DEFAULT_SETTINGS 750 (demoRange 10 15 0).
Proof.
  apply (progress_monotone DEFAULT_SETTINGS (demoRange 10 15 0) 300 750);
    reflexivity.
Defined.

(** A document of 12 characters: the span [10, 15) no longer fits, the two
    others do. *)
Lemma invalid_span_dropped_witness :
  let p := demoPlugin DEFAULT_SETTINGS
             [demoRange 1 3 0; demoRange 10 15 0; demoRange 4 6 50] in
  buildDecorations (H := boundedHost 12) true 100 p =
  buildDecorations (H := boundedHost 12) true 100
    (demoPlugin DEFAULT_SETTINGS [demoRange 1 3 0; demoRange 4 6 50]) /\
  settlingRanges (fst (buildDecorations (H := boundedHost 12) true 100 p)) =
    [demoRange 1 3 0; demoRange 4 6 50].
Proof.
  intro p. split; [|reflexivity].
  apply (invalid_span_dropped (H := boundedHost 12) true 100 p
           [demoRange 1 3 0] [demoRange 4 6 50] (demoRange 10 15 0));
    reflexivity.
Defined.



Lemma timer_stops_when_empty_witness :
  let st := update (H := permissiveHost) insertUpdate 0 freshWorld in
  exists st',
    step (H := permissiveHost) st (EvTimeout 1 tt 2000) = Some st' /\
    settlingRanges (fst st') = [] /\
    timers (snd st') = [] /\
    run (H := permissiveHost) st' [EvTimeout 2 tt 2016] = None.
Proof.
  intro st.
  assert (Hreach : reachable (H := permissiveHost) st).
  { apply (reach_step freshWorld (EvUpdate insertUpdate 0)); [|reflexivity].
    apply reach_new. }
  eexists. split; [reflexivity|]. split; [reflexivity|].
  split; [|reflexivity].
  exact (proj1 (timer_stops_when_empty (H := permissiveHost) st _ 1%nat tt 2000
                  Hreach eq_refl eq_refl)).
Defined.

(** The claim of C9 fails for "until a new insertion".  An interval is
    inserted at 0 and pruned by the tick at 2000, which leaves the set
    empty and no timeout pending.  A deletion at 3000 inserts nothing, yet
    it sets timeout 2, and that tick fires at 3016. *)
Lemma tick_after_deletion :
  let quiet := [EvUpdate deleteUpdate 3000; EvTimeout 2 tt 3016] in
  run (H := permissiveHost) freshWorld
      [EvUpdate insertUpdate 0; EvTimeout 1 tt 2000] =
    Some ({| decorations := [];
             settlingRanges := [];
             cleanupTimer := Some 1%nat;
             settings := DEFAULT_SETTINGS |},
          {| timers := []; nextTimer := 2 |}) /\
  forallb (fun e => negb (isInsertion e)) quiet = true /\
  existsb isTimeout quiet = true /\
  run (H := permissiveHost) freshWorld
      ([EvUpdate insertUpdate 0; EvTimeout 1 tt 2000] ++ quiet) =
    Some ({| decorations := [];
             settlingRanges := [];
             cleanupTimer := Some 2%nat;
             settings := DEFAULT_SETTINGS |},
          {| timers := []; nextTimer := 3 |}).
Proof. repeat split. Defined.

(** * Further properties of the plugin *)

(** ** The pass as a filter *)

Lemma alive_iff (s : LingerSettings) (now : Z) (r : SettlingRange) :
  alive s now r = true <-> age now r <= totalDuration s.
Proof. unfold alive. rewrite negb_true_iff. apply Qgtb_false. Qed.

Lemma progress_mono (s : LingerSettings) (r : SettlingRange) (t1 t2 : Z) :
  0 < transitionDuration s -> (t1 <= t2)%Z ->
  progress s t1 r <= progress s t2 r.
Proof.
  intros Hs Hle. unfold progress. apply Q.min_le_compat_r.
  apply Qdiv_le_mono; [now apply totalDuration_pos | now apply age_mono].
Qed.

Lemma iterChanges_spec (now : Z) : forall cs ranges,
  iterChanges now cs ranges = ranges ++ insertedRanges now cs.
Proof.
  unfold iterChanges, insertedRanges.
  induction cs as [|c rest IH]; intro ranges; simpl.
  - now rewrite app_nil_r.
  - rewrite IH. unfold pushChange.
    destruct (toB c >? fromB c)%Z; simpl; [|reflexivity].
    now rewrite <- app_assoc.
Qed.

Lemma insertedRanges_nonempty (now : Z) (cs : list Change) :
  Forall (fun r => (from r < to r)%Z /\ timestamp r = now) (insertedRanges now cs).
Proof.
  unfold insertedRanges. apply Forall_forall. intros r Hin.
  apply in_map_iff in Hin as (c & <- & Hc).
  apply filter_In in Hc as [_ Hc]. simpl. split; [lia | reflexivity].
Qed.

Section PassFacts.
Context {EditorView : Type} `{Host EditorView}.

(** When no [add] is refused, the pass keeps every unexpired range. *)
Lemma filterRanges_accepted_from s isDark now : forall ranges b,
  (forall l1 r l2,
     ranges = l1 ++ r :: l2 -> alive s now r = true ->
     addOk (b ++ map (paintOf s isDark now) (filter (alive s now) l1))
           (from r) (to r)
           (createSettlingMark s isDark (progress s now r)) = true) ->
  fst (filterRanges s isDark now b ranges) = filter (alive s now) ranges.
Proof.
  induction ranges as [|x rest IH]; intros b Hacc; simpl; [reflexivity|].
  destruct (alive s now x) eqn:Ex.
  - pose proof (Hacc [] x rest eq_refl Ex) as Hx.
    simpl in Hx. rewrite app_nil_r in Hx.
    pose proof Ex as Eq. unfold alive in Eq. apply negb_true_iff in Eq.
    rewrite Eq. unfold add. rewrite Hx.
    specialize (IH (b ++ [{| paintFrom := from x; paintTo := to x;
      paintMark := createSettlingMark s isDark (progress s now x) |}])).
    destruct (filterRanges s isDark now _ rest) as [kept final].
    simpl in *. f_equal. apply IH.
    intros l1 r l2 Heq Hr.
    pose proof (Hacc (x :: l1) r l2) as Hstep. simpl in Hstep.
    rewrite Ex in Hstep. simpl in Hstep.
    rewrite <- app_assoc. simpl. apply Hstep; [now rewrite Heq | exact Hr].
  - pose proof Ex as Ex'. unfold alive in Ex'. apply negb_false_iff in Ex'.
    rewrite Ex'. apply IH.
    intros l1 r l2 Heq Hr.
    pose proof (Hacc (x :: l1) r l2) as Hstep. simpl in Hstep.
    rewrite Ex in Hstep. apply Hstep; [now rewrite Heq | exact Hr].
Qed.

Lemma filterRanges_accepted s isDark now ranges :
  noAddRefused s isDark now ranges ->
  fst (filterRanges s isDark now [] ranges) = filter (alive s now) ranges.
Proof. intro Hacc. apply filterRanges_accepted_from. exact Hacc. Qed.

Lemma noAddRefused_prefix s isDark now l rest :
  noAddRefused s isDark now (l ++ rest) -> noAddRefused s isDark now l.
Proof.
  intros Hacc l1 r l2 Heq Hr.
  apply (Hacc l1 r (l2 ++ rest)); [|exact Hr].
  rewrite Heq, <- app_assoc. reflexivity.
Qed.

(** Ranges that would be filtered out as expired can be left out
    beforehand: the pass skips them before it touches the builder. *)
Lemma filterRanges_skip s isDark now (keep : SettlingRange -> bool) :
  (forall x, keep x = false -> alive s now x = false) ->
  forall l rest b,
    filterRanges s isDark now b (filter keep l ++ rest) =
    filterRanges s isDark now b (l ++ rest).
Proof.
  intro Hdead. induction l as [|x l IH]; intros rest b; simpl; [reflexivity|].
  destruct (keep x) eqn:Ek; simpl.
  - destruct (Qgtb (age now x) (totalDuration s)); [apply IH|].
    destruct (add b (from x) (to x) _) as [b'|]; [|apply IH].
    now rewrite IH.
  - pose proof (Hdead x Ek) as Ex. unfold alive in Ex.
    apply negb_false_iff in Ex. rewrite Ex. apply IH.
Qed.

(** A pass over what an earlier pass at the same [now] kept, followed by
    more ranges, is the pass over the original ranges followed by them. *)
Lemma filterRanges_after_pass s isDark now l rest b :
  filterRanges s isDark now b (fst (filterRanges s isDark now b l) ++ rest) =
  filterRanges s isDark now b (l ++ rest).
Proof.
  rewrite !filterRanges_app. now rewrite filterRanges_idem.
Qed.

Lemma alive_earlier (s : LingerSettings) (t1 t2 : Z) (x : SettlingRange) :
  (t1 <= t2)%Z -> alive s t1 x = false -> alive s t2 x = false.
Proof.
  intros Hle E1. destruct (alive s t2 x) eqn:E2; [|reflexivity].
  apply alive_iff in E2.
  assert (E : alive s t1 x = true)
    by (apply alive_iff; eapply Qle_trans; [apply age_mono, Hle | exact E2]).
  congruence.
Qed.

Lemma addsAccepted_from s isDark now : forall ranges b,
  addsAccepted s isDark now b ranges = true ->
  forall l1 r l2,
    ranges = l1 ++ r :: l2 -> alive s now r = true ->
    addOk (b ++ map (paintOf s isDark now) (filter (alive s now) l1))
          (from r) (to r)
          (createSettlingMark s isDark (progress s now r)) = true.
Proof.
  induction ranges as [|x rest IH]; intros b Hall l1 r l2 Heq Hr.
  - destruct l1; discriminate.
  - simpl in Hall. destruct l1 as [|y l1]; simpl in Heq; injection Heq as <- ->.
    + rewrite Hr in Hall. apply andb_true_iff in Hall as [Hx _].
      simpl. now rewrite app_nil_r.
    + simpl. destruct (alive s now x).
      * apply andb_true_iff in Hall as [_ Hrest]. simpl.
        replace (b ++ paintOf s isDark now x :: map (paintOf s isDark now)
                                                    (filter (alive s now) l1))
          with ((b ++ [paintOf s isDark now x]) ++
                map (paintOf s isDark now) (filter (alive s now) l1))
          by (now rewrite <- app_assoc).
        now apply (IH _ Hrest l1 r l2).
      * now apply (IH _ Hall l1 r l2).
Qed.

(** The executable check decides the hypothesis it stands for. *)
Lemma addsAccepted_sound s isDark now ranges :
  addsAccepted s isDark now [] ranges = true ->
  noAddRefused s isDark now ranges.
Proof. intros Hall l1 r l2. exact (addsAccepted_from _ _ _ _ _ Hall l1 r l2). Qed.

Lemma filterRanges_subsequence s isDark now : forall ranges b,
  Subsequence (fst (filterRanges s isDark now b ranges)) ranges.
Proof.
  induction ranges as [|x rest IH]; intro b; simpl; [constructor|].
  destruct (Qgtb (age now x) (totalDuration s)).
  - constructor. apply IH.
  - destruct (add b (from x) (to x) _) as [b'|].
    + specialize (IH b').
      destruct (filterRanges s isDark now b' rest) as [kept final].
      simpl in *. now constructor.
    + constructor. apply IH.
Qed.

(** X1.  When no [add] of the pass is refused, the pass is the plain
    filter by age: it keeps exactly the intervals with
    [now - timestamp <= transitionDuration * 1000], in their order, and
    returns one paint instruction for each. *)
Theorem pass_is_age_filter (v : EditorView) (now : Z) (p : SettlingViewPlugin) :
  noAddRefused (settings p) (isDarkMode v) now (settlingRanges p) ->
  settlingRanges (fst (buildDecorations v now p)) =
    filter (alive (settings p) now) (settlingRanges p) /\
  snd (buildDecorations v now p) =
    map (paintOf (settings p) (isDarkMode v) now)
        (filter (alive (settings p) now) (settlingRanges p)).
Proof.
  intro Hacc. rewrite buildDecorations_paints, buildDecorations_ranges.
  now rewrite (filterRanges_accepted _ _ _ _ Hacc).
Qed.

(** X2.  Whatever the host refuses, the pass only leaves intervals out:
    the working set after it is the one before it with some intervals
    removed, none added, changed or reordered. *)
Theorem pass_keeps_order (v : EditorView) (now : Z) (p : SettlingViewPlugin) :
  Subsequence (settlingRanges (fst (buildDecorations v now p)))
              (settlingRanges p).
Proof.
  rewrite buildDecorations_ranges. apply filterRanges_subsequence.
Qed.

(** X3.  Passes compose over time: when the pass at [t1] had no [add]
    refused, a pass at a later time [t2] gives the same working set and
    the same decoration set as it gives without the pass at [t1]. *)
Theorem earlier_pass_is_harmless (v1 v2 : EditorView) (t1 t2 : Z)
    (p : SettlingViewPlugin) :
  noAddRefused (settings p) (isDarkMode v1) t1 (settlingRanges p) ->
  (t1 <= t2)%Z ->
  buildDecorations v2 t2 (fst (buildDecorations v1 t1 p)) =
  buildDecorations v2 t2 p.
Proof.
  intros Hacc Hle.
  destruct (buildDecorations_frame v1 t1 p) as (Hs & Ht & Hd).
  pose proof (buildDecorations_ranges v1 t1 p) as Hr.
  rewrite (filterRanges_accepted _ _ _ _ Hacc) in Hr.
  destruct (buildDecorations v1 t1 p) as [p1 d1]. simpl in *.
  unfold buildDecorations, newRangeSetBuilder.
  rewrite Hs, Ht, Hd, Hr.
  pose proof (filterRanges_skip (settings p) (isDarkMode v2) t2
                (alive (settings p) t1)
                (fun x => alive_earlier (settings p) t1 t2 x Hle)
                (settlingRanges p) [] []) as Hskip.
  rewrite !app_nil_r in Hskip. now rewrite Hskip.
Qed.

End PassFacts.

(** ** The style value *)

(** X4.  With [0 <= intensity <= 1] and a positive duration, the value
    emitted for an interval at any [now] that is not before its timestamp
    lies between [1 - intensity] and 1, hence between 0 and 1, in both
    themes. *)
Theorem style_value_in_range (s : LingerSettings) (isDark : bool) (now : Z)
    (r : SettlingRange) :
  0 < transitionDuration s ->
  0 <= intensity s -> intensity s <= 1 ->
  (timestamp r <= now)%Z ->
  let value := styleValue (createSettlingMark s isDark (progress s now r)) in
  1 - intensity s <= value /\ value <= 1 /\ 0 <= value.
Proof.
  intros Hs Hi0 Hi1 Hnow value.
  pose proof (progress_nonneg s now r Hs Hnow) as Hp0.
  pose proof (progress_le_1 s now r) as Hp1.
  assert (Hv : value == 1 - intensity s + progress s now r * intensity s).
  { subst value. unfold styleValue. destruct isDark; simpl; apply Qeq_refl. }
  set (pr := progress s now r) in *.
  assert (Hlo : 0 <= pr * intensity s) by now apply Qmult_le_0_compat.
  assert (Hhi : pr * intensity s <= 1 * intensity s)
    by now apply Qmult_le_compat_r.
  rewrite Hv. repeat split; lra.
Qed.

(** X5.  With a non-negative intensity and a positive duration, the value
    emitted for an interval never decreases as time advances. *)
Theorem style_value_monotone (s : LingerSettings) (isDark : bool)
    (r : SettlingRange) (t1 t2 : Z) :
  0 < transitionDuration s -> 0 <= intensity s -> (t1 <= t2)%Z ->
  styleValue (createSettlingMark s isDark (progress s t1 r)) <=
  styleValue (createSettlingMark s isDark (progress s t2 r)).
Proof.
  intros Hs Hi Hle.
  pose proof (progress_mono s r t1 t2 Hs Hle) as Hp.
  assert (Hm : progress s t1 r * intensity s <= progress s t2 r * intensity s)
    by now apply Qmult_le_compat_r.
  unfold styleValue. destruct isDark; simpl; lra.
Qed.

(** ** Insertions *)

(** X6.  [update]'s loop over the changes appends, after the intervals
    already tracked, one interval per change with [toB > fromB], in the
    order of the changes, each spanning [fromB, toB) and stamped [now];
    the other changes add nothing. *)
Theorem iterChanges_appends (now : Z) (cs : list Change)
    (ranges : list SettlingRange) :
  iterChanges now cs ranges =
  ranges ++ map (fun c => {| from := fromB c; to := toB c; timestamp := now |})
                (filter (fun c => (toB c >? fromB c)%Z) cs).
Proof. exact (iterChanges_spec now cs ranges). Qed.

(** ** The event loop *)

Section LoopFacts.
Context {EditorView : Type} `{Host EditorView}.

Lemma scheduleCleanup_fst (p : SettlingViewPlugin) (w : Window) :
  fst (scheduleCleanup (p, w)) =
  {| decorations := decorations p;
     settlingRanges := settlingRanges p;
     cleanupTimer := Some (nextTimer w);
     settings := settings p |}.
Proof. unfold scheduleCleanup, setTimeout. now destruct (cleanupTimer p). Qed.

Lemma scheduleCleanup_snd_idle (p : SettlingViewPlugin) (w : Window) :
  timers w = [] ->
  snd (scheduleCleanup (p, w)) =
  {| timers := [nextTimer w]; nextTimer := S (nextTimer w) |}.
Proof.
  intro Hnil. unfold scheduleCleanup, setTimeout, clearTimeout.
  destruct (cleanupTimer p); simpl; now rewrite Hnil.
Qed.

Lemma update_unchanged_doc (u : ViewUpdate EditorView) (now : Z)
    (p : SettlingViewPlugin) (w : Window) :
  docChanged u = false ->
  update u now (p, w) =
  (if (0 <? List.length (settlingRanges p))%nat
   then rebuild (view u) now p else p, w).
Proof. intro Hdoc. unfold update. now rewrite Hdoc. Qed.

Lemma update_changed_doc (u : ViewUpdate EditorView) (now : Z)
    (p : SettlingViewPlugin) (w : Window) :
  docChanged u = true ->
  update u now (p, w) =
  let p1 := if (0 <? List.length (settlingRanges p))%nat
            then rebuild (view u) now p else p in
  scheduleCleanup
    (rebuild (view u) now
       {| decorations := decorations p1;
          settlingRanges := iterChanges now (changes u) (settlingRanges p1);
          cleanupTimer := cleanupTimer p1;
          settings := settings p1 |}, w).
Proof. intro Hdoc. unfold update. now rewrite Hdoc. Qed.

(** A property of the plugin alone that construction and every operation
    of the event loop keep holds in every reachable world. *)
Lemma reachable_plugin_inv (P : SettlingViewPlugin -> Prop) :
  (forall s id,
     P {| decorations := Decoration_none; settlingRanges := [];
          cleanupTimer := Some id; settings := s |}) ->
  (forall p id, P p ->
     P {| decorations := decorations p; settlingRanges := settlingRanges p;
          cleanupTimer := Some id; settings := settings p |}) ->
  (forall p v now, P p -> P (rebuild v now p)) ->
  (forall p v now cs, P p ->
     P (rebuild v now
          {| decorations := decorations p;
             settlingRanges := iterChanges now cs (settlingRanges p);
             cleanupTimer := cleanupTimer p;
             settings := settings p |})) ->
  (forall p s, P p -> P (updateSettings s p)) ->
  forall st, reachable st -> P (fst st).
Proof.
  intros Hnew Htimer Hrebuild Hpush Hset st Hreach.
  induction Hreach as [s n | [p w] e st' _ IH Hstep].
  - unfold constructor. rewrite scheduleCleanup_fst. apply Hnew.
  - simpl fst in IH. destruct e as [u now | id v now | s]; unfold step in Hstep.
    + some_inj Hstep.
      assert (Hp1 : P (if (0 <? List.length (settlingRanges p))%nat
                       then rebuild (view u) now p else p))
        by (destruct (0 <? _)%nat; [now apply Hrebuild | exact IH]).
      destruct (docChanged u) eqn:Hdoc.
      * rewrite (update_changed_doc u now p w Hdoc). cbv zeta.
        rewrite scheduleCleanup_fst. apply Htimer. now apply Hpush.
      * now rewrite (update_unchanged_doc u now p w Hdoc).
    + destruct (pending id w); [|discriminate]. some_inj Hstep.
      unfold timerCallback.
      destruct (0 <? _)%nat.
      * rewrite scheduleCleanup_fst. apply Htimer. now apply Hrebuild.
      * now apply Hrebuild.
    + some_inj Hstep. now apply Hset.
Qed.

Lemma reachable_timer_set (st : World) :
  reachable st -> exists id, cleanupTimer (fst st) = Some id.
Proof.
  apply (reachable_plugin_inv (fun p => exists id, cleanupTimer p = Some id)).
  - intros s id. now exists id.
  - intros p id _. now exists id.
  - intros p v now [id Hid]. exists id.
    now rewrite (proj2 (rebuild_frame v now p)).
  - intros p v now cs [id Hid]. exists id.
    now rewrite (proj2 (rebuild_frame _ _ _)).
  - intros p s Hid. exact Hid.
Qed.

(** X7.  In every world the plugin can reach, its [cleanupTimer] is set
    and at most one timeout is pending, which is then the one it
    remembers: timers never overlap. *)
Theorem timers_never_overlap (st : World) :
  reachable st ->
  exists id,
    cleanupTimer (fst st) = Some id /\
    (timers (snd st) = [] \/ timers (snd st) = [id]).
Proof.
  intro Hreach. destruct (reachable_timer_set st Hreach) as [id Hid].
  exists id. split; [exact Hid|].
  destruct (reachable_timerInv st Hreach) as [Hnil | (id' & Hid' & Hone)].
  - now left.
  - right. congruence.
Qed.

(** X8.  [destroy] leaves no timeout pending, so no tick can fire after
    it, and leaves the plugin's fields as they were. *)
Theorem destroy_cancels_timer (st : World) :
  reachable st ->
  timers (snd (destroy st)) = [] /\
  fst (destroy st) = fst st /\
  (forall id v now, step (destroy st) (EvTimeout id v now) = None).
Proof.
  intro Hreach. destruct st as [p w].
  assert (Hnil : timers (snd (destroy (p, w))) = []).
  { destruct (reachable_timerInv _ Hreach) as [Hnil | (id & Hid & Hone)];
      simpl in *; unfold destroy.
    - destruct (cleanupTimer p); simpl; [|exact Hnil].
      now rewrite Hnil.
    - rewrite Hid. simpl. rewrite Hone. simpl.
      destruct (Nat.eq_dec id id); [reflexivity | congruence]. }
  assert (Hfst : fst (destroy (p, w)) = p)
    by (unfold destroy; now destruct (cleanupTimer p)).
  split; [exact Hnil|]. split; [exact Hfst|].
  intros id v now. destruct (destroy (p, w)) as [p' w'].
  unfold step, pending. simpl in Hnil. now rewrite Hnil.
Qed.

(** X9.  A tick that leaves the working set non-empty sets the next
    timeout: afterwards exactly one timeout is pending, a new one, and the
    plugin remembers it. *)
Theorem tick_reschedules_while_active (st st' : World) (id : nat)
    (v : EditorView) (now : Z) :
  reachable st ->
  step st (EvTimeout id v now) = Some st' ->
  settlingRanges (fst st') <> [] ->
  cleanupTimer (fst st') = Some (nextTimer (snd st)) /\
  timers (snd st') = [nextTimer (snd st)] /\
  nextTimer (snd st') = S (nextTimer (snd st)).
Proof.
  intros Hreach Hstep Hactive. destruct st as [p w].
  pose proof (reachable_timerInv _ Hreach) as Hinv.
  unfold step in Hstep. destruct (pending id w) eqn:Hpend; [|discriminate].
  some_inj Hstep.
  pose proof (pending_timerInv p w id Hinv Hpend) as Hnil.
  unfold timerCallback in *.
  destruct (0 <? List.length (settlingRanges (rebuild v now p)))%nat eqn:Hlen.
  - rewrite scheduleCleanup_fst, (scheduleCleanup_snd_idle _ _ Hnil).
    simpl. repeat split.
  - exfalso. apply Hactive. simpl.
    destruct (settlingRanges (rebuild v now p)); [reflexivity | discriminate].
Qed.

(** X10.  A plugin is constructed with nothing tracked and one timeout
    pending; when that timeout fires before any insertion, the pass runs
    on the empty set and the timer is not set again. *)
Theorem first_tick_goes_idle (s : LingerSettings) (n : nat) (v : EditorView)
    (now : Z) :
  let st := constructor s {| timers := []; nextTimer := n |} in
  settlingRanges (fst st) = [] /\
  timers (snd st) = [n] /\
  step st (EvTimeout n v now) =
    Some ({| decorations := [];
             settlingRanges := [];
             cleanupTimer := Some n;
             settings := s |},
          {| timers := []; nextTimer := S n |}).
Proof.
  cbv zeta. split; [reflexivity|]. split; [reflexivity|].
  unfold constructor, scheduleCleanup, setTimeout, step, pending. simpl.
  rewrite Nat.eqb_refl. simpl.
  unfold timerCallback, rebuild, buildDecorations, clearTimeout. simpl.
  destruct (Nat.eq_dec n n); [reflexivity | congruence].
Qed.

Lemma reachable_spans (st : World) :
  reachable st ->
  map paintSpan (decorations (fst st)) = map rangeSpan (settlingRanges (fst st)).
Proof.
  assert (Hrebuild : forall v now p,
            map paintSpan (decorations (rebuild v now p)) =
            map rangeSpan (settlingRanges (rebuild v now p))).
  { intros v now p. rewrite rebuild_decorations, map_map. reflexivity. }
  apply (reachable_plugin_inv
           (fun p => map paintSpan (decorations p) =
                     map rangeSpan (settlingRanges p))).
  - reflexivity.
  - intros p id Hp. exact Hp.
  - intros p v now _. apply Hrebuild.
  - intros p v now cs _. apply Hrebuild.
  - intros p s Hp. exact Hp.
Qed.

(** X11.  In every reachable world the decoration set covers exactly the
    tracked intervals: the spans of its paint instructions are the spans
    of the working set, one for one (each span as many times in the one as
    in the other; nothing is said of their order). *)
Theorem decorations_cover_tracked (st : World) :
  reachable st ->
  Permutation (map paintSpan (decorations (fst st)))
              (map rangeSpan (settlingRanges (fst st))).
Proof.
  intro Hreach. rewrite (reachable_spans st Hreach). apply Permutation_refl.
Qed.

(** X12.  Every interval the plugin ever tracks has a non-empty span,
    [from < to]. *)
Theorem tracked_spans_nonempty (st : World) :
  reachable st ->
  Forall (fun r => (from r < to r)%Z) (settlingRanges (fst st)).
Proof.
  assert (Hrebuild : forall v now p,
            Forall (fun r => (from r < to r)%Z) (settlingRanges p) ->
            Forall (fun r => (from r < to r)%Z) (settlingRanges (rebuild v now p))).
  { intros v now p Hp. apply Forall_forall. intros r Hin.
    apply (proj1 (Forall_forall _ _) Hp). now apply (rebuild_incl v now p). }
  apply (reachable_plugin_inv
           (fun p => Forall (fun r => (from r < to r)%Z) (settlingRanges p))).
  - constructor.
  - intros p id Hp. exact Hp.
  - intros p v now Hp. now apply Hrebuild.
  - intros p v now cs Hp. apply Hrebuild. simpl.
    rewrite iterChanges_spec. apply Forall_app. split; [exact Hp|].
    eapply Forall_impl; [|apply insertedRanges_nonempty].
    intros r [Hr _]. exact Hr.
  - intros p s Hp. exact Hp.
Qed.

(** X13.  An update that did not change the document ignores the changes
    it carries, does not touch the timer, and at most prunes: it tracks no
    new interval, and on an empty working set it does nothing at all. *)
Theorem update_without_doc_change (u : ViewUpdate EditorView) (now : Z)
    (st : World) :
  docChanged u = false ->
  update u now st =
    update {| view := view u; docChanged := false; changes := [] |} now st /\
  snd (update u now st) = snd st /\
  cleanupTimer (fst (update u now st)) = cleanupTimer (fst st) /\
  Subsequence (settlingRanges (fst (update u now st))) (settlingRanges (fst st)) /\
  (settlingRanges (fst st) = [] -> update u now st = st).
Proof.
  intro Hdoc. destruct st as [p w].
  rewrite (update_unchanged_doc u now p w Hdoc).
  rewrite (update_unchanged_doc
             {| view := view u; docChanged := false; changes := [] |}
             now p w eq_refl).
  simpl. split; [reflexivity|]. split; [reflexivity|]. split; [|split].
  - destruct (0 <? _)%nat; [apply rebuild_frame | reflexivity].
  - destruct (0 <? _)%nat.
    + rewrite rebuild_ranges. apply filterRanges_subsequence.
    + clear. induction (settlingRanges p); now constructor.
  - intros ->. reflexivity.
Qed.

(** What an update that changed the document leaves is what one pass
    leaves of the old intervals followed by the inserted ones. *)
Lemma update_single_pass (u : ViewUpdate EditorView) (now : Z)
    (p : SettlingViewPlugin) (w : Window) :
  docChanged u = true ->
  let s := settings p in
  let isDark := isDarkMode (view u) in
  let kept := fst (filterRanges s isDark now []
                     (settlingRanges p ++ insertedRanges now (changes u))) in
  settlingRanges (fst (update u now (p, w))) = kept /\
  decorations (fst (update u now (p, w))) = map (paintOf s isDark now) kept /\
  settings (fst (update u now (p, w))) = s.
Proof.
  intros Hdoc s isDark kept.
  destruct (update_docChanged u now p w Hdoc) as (Hr & Hd & Hs).
  cbv zeta in Hr, Hd. fold s isDark in Hr, Hd.
  assert (Hkept : fst (filterRanges s isDark now []
                         (iterChanges now (changes u)
                            (if (0 <? List.length (settlingRanges p))%nat
                             then fst (filterRanges s isDark now [] (settlingRanges p))
                             else settlingRanges p))) = kept).
  { rewrite iterChanges_spec. subst kept.
    destruct (0 <? List.length (settlingRanges p))%nat; [|reflexivity].
    now rewrite filterRanges_after_pass. }
  rewrite Hkept in Hr, Hd. now repeat split.
Qed.

Lemma inserted_alive (s : LingerSettings) (now : Z) (cs : list Change) :
  0 < transitionDuration s ->
  filter (alive s now) (insertedRanges now cs) = insertedRanges now cs.
Proof.
  intro Hs. pose proof (insertedRanges_nonempty now cs) as Hall.
  induction (insertedRanges now cs) as [|x l IH]; [reflexivity|].
  inversion Hall as [|? ? [_ Hts] Hrest]; subst. simpl.
  replace (alive s (timestamp x) x) with true.
  - now rewrite IH.
  - symmetry. apply alive_iff. unfold age. rewrite Z.sub_diag.
    apply Qlt_le_weak, totalDuration_pos, Hs.
Qed.

(** X14.  With a positive duration, an update at [now] that changed the
    document and in whose pass no [add] is refused leaves the intervals
    that have not expired at [now], followed by one new interval per
    inserted span. *)
Theorem update_prunes_then_appends (u : ViewUpdate EditorView) (now : Z)
    (p : SettlingViewPlugin) (w : Window) :
  noAddRefused (settings p) (isDarkMode (view u)) now
    (settlingRanges p ++ insertedRanges now (changes u)) ->
  0 < transitionDuration (settings p) ->
  docChanged u = true ->
  settlingRanges (fst (update u now (p, w))) =
  filter (alive (settings p) now) (settlingRanges p) ++
  insertedRanges now (changes u).
Proof.
  intros Hacc Hs Hdoc.
  destruct (update_single_pass u now p w Hdoc) as (Hr & _ & _).
  cbv zeta in Hr. rewrite Hr.
  rewrite (filterRanges_accepted _ _ _ _ Hacc), filter_app.
  now rewrite (inserted_alive _ _ _ Hs).
Qed.

(** X18.  An update that changed the document leaves exactly what a single
    pass leaves of the old working set followed by the inserted intervals:
    its working set and its decoration set are those of [buildDecorations]
    run once on that list, whatever the host refuses. *)
Theorem update_is_one_pass (u : ViewUpdate EditorView) (now : Z)
    (p : SettlingViewPlugin) (w : Window) :
  docChanged u = true ->
  let extended :=
    {| decorations := decorations p;
       settlingRanges := settlingRanges p ++ insertedRanges now (changes u);
       cleanupTimer := cleanupTimer p;
       settings := settings p |} in
  settlingRanges (fst (update u now (p, w))) =
    settlingRanges (fst (buildDecorations (view u) now extended)) /\
  decorations (fst (update u now (p, w))) =
    snd (buildDecorations (view u) now extended).
Proof.
  intros Hdoc extended.
  destruct (update_single_pass u now p w Hdoc) as (Hr & Hd & _).
  cbv zeta in Hr, Hd. rewrite Hr, Hd. subst extended.
  rewrite buildDecorations_paints, buildDecorations_ranges.
  split; reflexivity.
Qed.

(** C6 (as amended).  Two insertions reported at different times
    [t1 < t2], overlapping or not, on top of any working set: when the
    first interval has not expired at [t2] and no [add] is refused in the
    pass of either update, both are intervals of the working set, after
    the older intervals that have not expired, and the decoration set has
    one paint instruction per interval, each with the progress of its own
    creation time. *)
Theorem overlapping_insertions_tracked (v1 v2 : EditorView)
    (p0 : SettlingViewPlugin) (w0 : Window) (c1 c2 : Change) (t1 t2 : Z) :
  let s := settings p0 in
  let r1 := {| from := fromB c1; to := toB c1; timestamp := t1 |} in
  let r2 := {| from := fromB c2; to := toB c2; timestamp := t2 |} in
  0 < transitionDuration s ->
  (fromB c1 < toB c1)%Z -> (fromB c2 < toB c2)%Z ->
  (t1 < t2)%Z -> age t2 r1 <= totalDuration s ->
  noAddRefused s (isDarkMode v1) t1 (settlingRanges p0 ++ [r1]) ->
  noAddRefused s (isDarkMode v2) t2 (settlingRanges p0 ++ [r1; r2]) ->
  let st1 := update {| view := v1; docChanged := true; changes := [c1] |} t1 (p0, w0) in
  let st2 := update {| view := v2; docChanged := true; changes := [c2] |} t2 st1 in
  settlingRanges (fst st2) =
    filter (alive s t2) (settlingRanges p0) ++ [r1; r2] /\
  decorations (fst st2) =
    map (paintOf s (isDarkMode v2) t2)
        (filter (alive s t2) (settlingRanges p0) ++ [r1; r2]) /\
  progress s t2 r1 == Qmin (inject_Z (t2 - t1) / totalDuration s) 1 /\
  progress s t2 r2 == 0.
Proof.
  intros s r1 r2 Hs Hc1 Hc2 Ht Halive Hacc1 Hacc2 st1 st2.
  assert (Hnew1 : insertedRanges t1 [c1] = [r1]).
  { unfold insertedRanges. simpl.
    now replace (toB c1 >? fromB c1)%Z with true by (symmetry; lia). }
  assert (Hnew2 : insertedRanges t2 [c2] = [r2]).
  { unfold insertedRanges. simpl.
    now replace (toB c2 >? fromB c2)%Z with true by (symmetry; lia). }
  assert (Hr1alive1 : alive s t1 r1 = true).
  { apply alive_iff. unfold age. simpl. rewrite Z.sub_diag.
    apply Qlt_le_weak, totalDuration_pos, Hs. }
  assert (Hr2alive2 : alive s t2 r2 = true).
  { apply alive_iff. unfold age. simpl. rewrite Z.sub_diag.
    apply Qlt_le_weak, totalDuration_pos, Hs. }
  assert (Hr1alive2 : alive s t2 r1 = true) by now apply alive_iff.
  (* the first update *)
  assert (H1 : settlingRanges (fst st1) =
               filter (alive s t1) (settlingRanges p0) ++ [r1] /\
               settings (fst st1) = s).
  { pose proof (update_single_pass
                  {| view := v1; docChanged := true; changes := [c1] |}
                  t1 p0 w0 eq_refl) as Hu.
    cbv zeta in Hu. fold st1 s in Hu. destruct Hu as (Hr & _ & Hset).
    split; [|exact Hset]. rewrite Hr. cbn [view changes]. rewrite Hnew1.
    rewrite (filterRanges_accepted _ _ _ _ Hacc1), filter_app.
    simpl. now rewrite Hr1alive1. }
  clearbody st1. destruct st1 as [p1 w1]. destruct H1 as [Hr1 Hs1].
  cbn [fst] in Hr1, Hs1.
  (* the second update *)
  pose proof (update_single_pass
                {| view := v2; docChanged := true; changes := [c2] |}
                t2 p1 w1 eq_refl) as Hu.
  cbv zeta in Hu. fold st2 in Hu. destruct Hu as (Hr & Hd & _).
  cbn [view changes] in Hr, Hd. rewrite Hr1, Hs1, Hnew2 in Hr, Hd.
  assert (Hkept : fst (filterRanges s (isDarkMode v2) t2 []
                         ((filter (alive s t1) (settlingRanges p0) ++ [r1]) ++ [r2])) =
                  filter (alive s t2) (settlingRanges p0) ++ [r1; r2]).
  { rewrite <- app_assoc. cbn [app].
    rewrite (filterRanges_skip s (isDarkMode v2) t2 (alive s t1)
               (fun x => alive_earlier s t1 t2 x (Z.lt_le_incl _ _ Ht))).
    rewrite (filterRanges_accepted _ _ _ _ Hacc2), filter_app.
    simpl. now rewrite Hr1alive2, Hr2alive2. }
  rewrite Hkept in Hr, Hd.
  split; [exact Hr|]. split; [exact Hd|]. split.
  - unfold progress, age. cbn [timestamp r1]. apply Qeq_refl.
  - now apply progress_at_creation.
Qed.

(** X15.  After any update and after any tick, no tracked interval is
    older than the duration at the [now] of that event: what is rendered
    never includes an expired interval. *)
Theorem tracked_alive_after_event (st st' : World) (e : Event) (now : Z) :
  eventTime e = Some now ->
  step st e = Some st' ->
  forall r, In r (settlingRanges (fst st')) ->
            age now r <= totalDuration (settings (fst st')).
Proof.
  intros Htime Hstep r Hin. destruct st as [p w].
  assert (Hrebuild : forall v q,
            In r (settlingRanges (rebuild v now q)) ->
            age now r <= totalDuration (settings (rebuild v now q))).
  { intros v q Hq. rewrite (proj1 (rebuild_frame v now q)).
    rewrite rebuild_ranges in Hq. exact (filterRanges_alive _ _ _ _ _ _ Hq). }
  destruct e as [u t | id v t | s]; simpl in Htime;
    [injection Htime as -> | injection Htime as -> | discriminate];
    unfold step in Hstep.
  - some_inj Hstep. destruct (docChanged u) eqn:Hdoc.
    + rewrite (update_changed_doc u now p w Hdoc) in *. cbv zeta in *.
      rewrite scheduleCleanup_fst in *. simpl in *. now apply Hrebuild.
    + rewrite (update_unchanged_doc u now p w Hdoc) in *. simpl in *.
      destruct (0 <? List.length (settlingRanges p))%nat eqn:Hlen.
      * now apply Hrebuild.
      * destruct (settlingRanges p); [contradiction | discriminate].
  - destruct (pending id w); [|discriminate]. some_inj Hstep.
    unfold timerCallback in *.
    destruct (0 <? _)%nat.
    + rewrite scheduleCleanup_fst in *. simpl in *. now apply Hrebuild.
    + simpl in *. now apply Hrebuild.
Qed.

Lemma step_settings (st st' : World) (e : Event) :
  isUpdateSettings e = false -> step st e = Some st' ->
  settings (fst st') = settings (fst st).
Proof.
  intros He Hstep. destruct st as [p w].
  destruct e as [u now | id v now | s]; [| |discriminate]; unfold step in Hstep.
  - some_inj Hstep. destruct (docChanged u) eqn:Hdoc.
    + exact (proj2 (proj2 (update_docChanged u now p w Hdoc))).
    + rewrite (update_unchanged_doc u now p w Hdoc). simpl.
      destruct (0 <? _)%nat; [apply rebuild_frame | reflexivity].
  - destruct (pending id w); [|discriminate]. some_inj Hstep.
    unfold timerCallback. destruct (0 <? _)%nat.
    + rewrite scheduleCleanup_fst. simpl. apply rebuild_frame.
    + simpl. apply rebuild_frame.
Qed.

(** X16.  Updates and ticks never change the plugin's settings; only
    [updateSettings] does.  So a plugin built by the registered extension
    keeps, through any run without [updateSettings], the first value
    provided for [settingsField], and [DEFAULT_SETTINGS] when no value is
    provided or the state has no facet. *)
Theorem settings_fixed_without_updateSettings
    (facet : option (list LingerSettings)) (w : Window)
    (events : list Event) (st' : World) :
  forallb (fun e => negb (isUpdateSettings e)) events = true ->
  run (extensionConstructor facet w) events = Some st' ->
  settings (fst st') =
  match facet with
  | Some (v :: _) => v
  | _ => DEFAULT_SETTINGS
  end.
Proof.
  intros Hquiet Hrun.
  assert (Hkeep : forall evs st,
            forallb (fun e => negb (isUpdateSettings e)) evs = true ->
            run st evs = Some st' -> settings (fst st') = settings (fst st)).
  { induction evs as [|e rest IH]; intros st Hq Hr; simpl in Hr.
    - now some_inj Hr.
    - simpl in Hq. apply andb_true_iff in Hq as [He Hrest].
      apply negb_true_iff in He.
      destruct (step st e) as [st1|] eqn:Hstep; [|discriminate].
      rewrite (IH st1 Hrest Hr). exact (step_settings st st1 e He Hstep). }
  rewrite (Hkeep events _ Hquiet Hrun).
  unfold extensionConstructor, constructor. rewrite scheduleCleanup_fst. simpl.
  destruct facet as [[|v vs]|]; reflexivity.
Qed.

End LoopFacts.

(** ** Settings *)

(** X17.  Settings that were saved load back unchanged, also after a
    slider changed one of them; a store that is empty or lacks a key gives
    the default for what is missing and the stored value for the rest. *)
Theorem settings_round_trip (s : LingerSettings) (val : Q) :
  loadSettings (saveSettings s) = s /\
  loadSettings (saveSettings (setTransitionDuration val s)) =
    {| transitionDuration := val; intensity := intensity s |} /\
  loadSettings (saveSettings (setIntensity val s)) =
    {| transitionDuration := transitionDuration s; intensity := val |} /\
  loadSettings None = DEFAULT_SETTINGS /\
  loadSettings (Some {| savedTransitionDuration := Some val;
                        savedIntensity := None |}) =
    {| transitionDuration := val; intensity := intensity DEFAULT_SETTINGS |} /\
  loadSettings (Some {| savedTransitionDuration := None;
                        savedIntensity := Some val |}) =
    {| transitionDuration := transitionDuration DEFAULT_SETTINGS;
       intensity := val |}.
Proof. destruct s. repeat split. Qed.

(** ** The further properties at concrete inputs *)

Lemma reachable_after_insert :
  reachable (H := permissiveHost)
    (update (H := permissiveHost) insertUpdate 0 freshWorld).
Proof.
  apply (reach_step freshWorld (EvUpdate insertUpdate 0)); [|reflexivity].
  apply reach_new.
Defined.

(** Under the ordering rule: the interval of time 0 has expired at 2000,
    the one of 1000 is accepted and stays. *)
Lemma pass_is_age_filter_witness :
  settlingRanges
    (fst (buildDecorations (H := orderedHost) false 2000
            (demoPlugin DEFAULT_SETTINGS
               [demoRange 10 15 0; demoRange 20 22 1000]))) =
  [demoRange 20 22 1000].
Proof.
  exact (proj1 (pass_is_age_filter (H := orderedHost) false 2000
                  (demoPlugin DEFAULT_SETTINGS
                     [demoRange 10 15 0; demoRange 20 22 1000])
                  (addsAccepted_sound (H := orderedHost) DEFAULT_SETTINGS false 2000
              [demoRange 10 15 0; demoRange 20 22 1000] eq_refl))).
Defined.

Lemma earlier_pass_is_harmless_witness :
  let p := demoPlugin DEFAULT_SETTINGS
             [demoRange 10 15 0; demoRange 20 22 1000] in
  buildDecorations (H := orderedHost) false 2000
    (fst (buildDecorations (H := orderedHost) false 1200 p)) =
  buildDecorations (H := orderedHost) false 2000 p.
Proof.
  intro p.
  apply (earlier_pass_is_harmless (H := orderedHost) false false 1200 2000 p
           (addsAccepted_sound (H := orderedHost) DEFAULT_SETTINGS false 1200
              [demoRange 10 15 0; demoRange 20 22 1000] eq_refl)).
  discriminate.
Defined.

Lemma style_value_in_range_witness :
  let value := styleValue (createSettlingMark DEFAULT_SETTINGS true
                             (progress DEFAULT_SETTINGS 750 (demoRange 10 15 0))) in
  1 - intensity DEFAULT_SETTINGS <= value /\ value <= 1 /\ 0 <= value.
Proof.
  apply (style_value_in_range DEFAULT_SETTINGS true 750 (demoRange 10 15 0));
    try reflexivity; discriminate.
Defined.

Lemma style_value_monotone_witness :
  styleValue (createSettlingMark DEFAULT_SETTINGS false
                (progress DEFAULT_SETTINGS 300 (demoRange 10 15 0))) <=
  styleValue (createSettlingMark DEFAULT_SETTINGS false
                (progress DEFAULT_SETTINGS 750 (demoRange 10 15 0))).
Proof.
  apply (style_value_monotone DEFAULT_SETTINGS false (demoRange 10 15 0) 300 750);
    try reflexivity; discriminate.
Defined.

Lemma timers_never_overlap_witness :
  exists id,
    cleanupTimer (fst (update (H := permissiveHost) insertUpdate 0 freshWorld))
      = Some id /\
    (timers (snd (update (H := permissiveHost) insertUpdate 0 freshWorld)) = [] \/
     timers (snd (update (H := permissiveHost) insertUpdate 0 freshWorld)) = [id]).
Proof.
  exact (timers_never_overlap (H := permissiveHost) _ reachable_after_insert).
Defined.

Lemma destroy_cancels_timer_witness :
  timers (snd (destroy (update (H := permissiveHost) insertUpdate 0 freshWorld)))
    = [] /\
  step (H := permissiveHost)
    (destroy (update (H := permissiveHost) insertUpdate 0 freshWorld))
    (EvTimeout 1 tt 16) = None.
Proof.
  destruct (destroy_cancels_timer (H := permissiveHost) _ reachable_after_insert)
    as (Hnil & _ & Hnone).
  split; [exact Hnil | apply Hnone].
Defined.

Lemma tick_reschedules_while_active_witness :
  exists st',
    step (H := permissiveHost)
      (update (H := permissiveHost) insertUpdate 0 freshWorld)
      (EvTimeout 1 tt 16) = Some st' /\
    cleanupTimer (fst st') = Some 2%nat /\
    timers (snd st') = [2%nat].
Proof.
  eexists. split; [reflexivity|].
  destruct (tick_reschedules_while_active (H := permissiveHost) _ _ 1%nat tt 16
              reachable_after_insert eq_refl) as (Hid & Hpending & _).
  - discriminate.
  - split; [exact Hid | exact Hpending].
Defined.

Lemma decorations_cover_tracked_witness :
  Permutation
    (map paintSpan
       (decorations (fst (update (H := permissiveHost) insertUpdate 0 freshWorld))))
    (map rangeSpan
       (settlingRanges (fst (update (H := permissiveHost) insertUpdate 0 freshWorld)))).
Proof.
  exact (decorations_cover_tracked (H := permissiveHost) _ reachable_after_insert).
Defined.

Lemma tracked_spans_nonempty_witness :
  Forall (fun r => (from r < to r)%Z)
    (settlingRanges (fst (update (H := permissiveHost) insertUpdate 0 freshWorld))).
Proof.
  exact (tracked_spans_nonempty (H := permissiveHost) _ reachable_after_insert).
Defined.

(** A selection change that carries an insertion but reports no document
    change: nothing is tracked, no timeout is set. *)
Lemma update_without_doc_change_witness :
  let u := {| view := tt; docChanged := false; changes := [insertion 10 15] |} in
  let idle := ({| decorations := [];
                  settlingRanges := [];
                  cleanupTimer := Some 0%nat;
                  settings := DEFAULT_SETTINGS |},
               {| timers := []; nextTimer := 1 |}) in
  update (H := permissiveHost) u 100 idle = idle.
Proof.
  intros u idle.
  destruct (update_without_doc_change (H := permissiveHost) u 100 idle eq_refl)
    as (_ & _ & _ & _ & Hidle).
  apply Hidle. reflexivity.
Defined.

(** Under the ordering rule: the interval of time 0 has expired at 2000;
    the one of 1000 stays and the span inserted after it follows it. *)
Lemma update_prunes_then_appends_witness :
  settlingRanges
    (fst (update (H := orderedHost) (insertAt 30 33) 2000
            (demoPlugin DEFAULT_SETTINGS
               [demoRange 10 15 0; demoRange 20 22 1000], emptyWindow))) =
  [demoRange 20 22 1000; demoRange 30 33 2000].
Proof.
  exact (update_prunes_then_appends (H := orderedHost) (insertAt 30 33) 2000
           (demoPlugin DEFAULT_SETTINGS
              [demoRange 10 15 0; demoRange 20 22 1000])
           emptyWindow
           (addsAccepted_sound (H := orderedHost) DEFAULT_SETTINGS false 2000
              ([demoRange 10 15 0; demoRange 20 22 1000] ++
               insertedRanges 2000 [insertion 30 33]) eq_refl)
           eq_refl eq_refl).
Defined.

Lemma tracked_alive_after_event_witness :
  age 16 (demoRange 10 15 0) <= totalDuration DEFAULT_SETTINGS.
Proof.
  apply (tracked_alive_after_event (H := permissiveHost)
           (update (H := permissiveHost) insertUpdate 0 freshWorld)
           (timerCallback (H := permissiveHost) tt 16
              (fst (update (H := permissiveHost) insertUpdate 0 freshWorld),
               clearTimeout
                 (snd (update (H := permissiveHost) insertUpdate 0 freshWorld)) 1))
           (EvTimeout 1 tt 16) 16 eq_refl eq_refl (demoRange 10 15 0)).
  left. reflexivity.
Defined.

(** No value is provided for the facet: the plugin runs on the defaults. *)
Lemma settings_fixed_without_updateSettings_witness :
  exists st',
    run (H := permissiveHost) (extensionConstructor (Some []) emptyWindow)
        [EvUpdate insertUpdate 0; EvTimeout 1 tt 16] = Some st' /\
    settings (fst st') = DEFAULT_SETTINGS.
Proof.
  eexists. split; [reflexivity|].
  exact (settings_fixed_without_updateSettings (H := permissiveHost)
           (Some []) emptyWindow
           [EvUpdate insertUpdate 0; EvTimeout 1 tt 16] _ eq_refl eq_refl).
Defined.

(** Under the ordering rule, on top of a tracked [1, 3): spans [10, 15)
    at time 100 and [12, 20) at time 600 overlap and are both tracked. *)
Lemma overlapping_insertions_tracked_witness :
  let p0 := demoPlugin DEFAULT_SETTINGS [demoRange 1 3 0] in
  let st1 := update (H := orderedHost) (insertAt 10 15) 100 (p0, emptyWindow) in
  let st2 := update (H := orderedHost) (insertAt 12 20) 600 st1 in
  settlingRanges (fst st2) =
    [demoRange 1 3 0; demoRange 10 15 100; demoRange 12 20 600] /\
  decorations (fst st2) =
    [paintOf DEFAULT_SETTINGS false 600 (demoRange 1 3 0);
     paintOf DEFAULT_SETTINGS false 600 (demoRange 10 15 100);
     paintOf DEFAULT_SETTINGS false 600 (demoRange 12 20 600)].
Proof.
  intros p0 st1 st2.
  destruct (overlapping_insertions_tracked (H := orderedHost) false false
              p0 emptyWindow (insertion 10 15) (insertion 12 20) 100 600)
    as (Hr & Hd & _);
    try reflexivity; try discriminate;
    try (apply (addsAccepted_sound (H := orderedHost)); reflexivity).
  split; [exact Hr | exact Hd].
Defined.

(** The claim of C6 fails when the later span starts before the earlier
    one.  Under the ordering rule, [10, 15) is inserted at time 0 and
    [8, 12) at time 600: the spans overlap, the first interval has not
    expired, yet [add] throws for the second span, which is dropped in the
    very update that reports it: one interval tracked, one paint
    instruction. *)
Lemma earlier_start_dropped :
  let st1 := update (H := orderedHost) (insertAt 10 15) 0 freshWorld in
  let st2 := update (H := orderedHost) (insertAt 8 12) 600 st1 in
  (8 < 15 /\ 10 < 12)%Z /\
  settlingRanges (fst st1) = [demoRange 10 15 0] /\
  settlingRanges (fst st2) = [demoRange 10 15 0] /\
  decorations (fst st2) = [paintOf DEFAULT_SETTINGS false 600 (demoRange 10 15 0)].
Proof. repeat split. Defined.

(** Under the ordering rule a span typed before a settling one is
    refused: the update is the one pass all the same. *)
Lemma update_is_one_pass_witness :
  let p := demoPlugin DEFAULT_SETTINGS [demoRange 20 22 1000] in
  settlingRanges (fst (update (H := orderedHost) (insertAt 3 4) 1200 (p, emptyWindow))) =
    settlingRanges
      (fst (buildDecorations (H := orderedHost) false 1200
              (demoPlugin DEFAULT_SETTINGS
                 [demoRange 20 22 1000; demoRange 3 4 1200]))) /\
  settlingRanges (fst (update (H := orderedHost) (insertAt 3 4) 1200 (p, emptyWindow))) =
    [demoRange 20 22 1000].
Proof.
  intro p. split; [|reflexivity].
  exact (proj1 (update_is_one_pass (H := orderedHost) (insertAt 3 4) 1200 p
                  emptyWindow eq_refl)).
Defined.
